(** * Verification of the column-drawing JIT of r_jit.c

    Shallow embedding of [src/doom_src/src/doom/r_jit.c]:
    - the code generator [R_JIT_GenerateDrawColumn] (ARM64 and x86_64
      backends and the fallback), as a transformer of the JIT state that
      also returns the list of side effects it performs, in order;
    - small decoders and interpreters for the machine code it emits, so
      that the emitted bytes themselves are executed;
    - the frame hooks [R_JIT_FrameStart] / [R_JIT_FrameEnd], the mode
      toggles and the CSV log. *)

From Stdlib Require Import ZArith List String Ascii Bool Lia FunctionalExtensionality.
From Stdlib Require SpecFloat.
Import ListNotations.
Open Scope Z_scope.

(** ** Machine integers and byte memory *)

Definition wrap32 (x : Z) : Z := x mod 2 ^ 32.
Definition wrap64 (x : Z) : Z := x mod 2 ^ 64.

(** Point update of a byte-indexed function (memory, buffer, registers). *)
Definition upd (f : Z -> Z) (k v : Z) : Z -> Z :=
  fun x => if Z.eqb x k then v else f x.

(** Data memory: 64-bit addresses to bytes. *)
Definition mem := Z -> Z.
Definition load8 (m : mem) (addr : Z) : Z := Z.land (m (wrap64 addr)) 255.
Definition store8 (m : mem) (addr v : Z) : mem :=
  upd m (wrap64 addr) (Z.land v 255).

(** [memcpy(buf + off, bytes, length bytes)]. *)
Fixpoint memcpy (buf : Z -> Z) (off : Z) (bs : list Z) : Z -> Z :=
  match bs with
  | [] => buf
  | b :: bs' => memcpy (upd buf off b) (off + 1) bs'
  end.

(** Little-endian byte image of an [n]-byte integer and its inverse. *)
Definition byte_at (x : Z) (j : nat) : Z := Z.land (Z.shiftr x (8 * Z.of_nat j)) 255.

Definition le_bytes (n : nat) (x : Z) : list Z := map (byte_at x) (seq 0 n).

Fixpoint le_value (bs : list Z) : Z :=
  match bs with
  | [] => 0
  | b :: bs' => Z.lor b (Z.shiftl (le_value bs') 8)
  end.

(** ** The JIT state and the code generator *)

Definition jit_code_size : Z := 4096.

Definition is_set (o : option Z) : bool :=
  match o with Some _ => true | None => false end.

Record jit_state := mk_jit {
  jit_code : option Z;          (** base of the mapping, [None] for NULL *)
  jit_buf : Z -> Z;             (** byte at [jit_code + offset] *)
  jit_compiled_fn : option Z;   (** [jit_compiled_fn], [None] for NULL *)
  jit_current_colormap : Z      (** [jit_current_colormap], 0 for NULL *)
}.

(** Build configuration: which branch of the [#ifdef] is compiled. *)
Inductive target := Arm64Apple | Arm64Other | X86_64 | Unsupported.

(** Side effects of the generator on the executable region, in order. *)
Inductive event :=
| EvWriteProtect (on : bool)         (** [pthread_jit_write_protect_np(on)] *)
| EvStore (off : Z) (bytes : list Z) (** bytes written at [jit_code + off] *)
| EvICacheInvalidate (off len : Z)   (** [sys_icache_invalidate(jit_code + off, len)] *)
| EvPublish (entry : Z).             (** [jit_compiled_fn = jit_code] *)

(** The 21 instruction words of the ARM64 backend, [code[0] .. code[20]],
    for the baked address [cmap_addr]. *)
Definition arm_loop_start : Z := 9.
Definition arm_branch_index : Z := 17.

Definition arm_words (cmap_addr : Z) : list Z :=
  [ 0xa9bf4ff3;                                              (* stp x19, x20 *)
    0xa9bf57f5;                                              (* stp x21, x22 *)
    Z.lor 0xd2800013 (Z.shiftl (Z.land cmap_addr 0xFFFF) 5);  (* movz x19 *)
    Z.lor 0xf2a00013 (Z.shiftl (Z.land (Z.shiftr cmap_addr 16) 0xFFFF) 5);
    Z.lor 0xf2c00013 (Z.shiftl (Z.land (Z.shiftr cmap_addr 32) 0xFFFF) 5);
    Z.lor 0xf2e00013 (Z.shiftl (Z.land (Z.shiftr cmap_addr 48) 0xFFFF) 5);
    0xd2802814;                                              (* movz x20, #320 *)
    0xaa0003f5;                                              (* mov x21, x0 *)
    0x2a0503f6;                                              (* mov w22, w5 *)
    0x53104ec8;                                              (* "lsr w8, w22, #16" *)
    0x12001908;                                              (* and w8, w8, #127 *)
    0x38686829;                                              (* ldrb w9, [x1, x8] *)
    0x38696a69;                                              (* ldrb w9, [x19, x9] *)
    0x390002a9;                                              (* strb w9, [x21] *)
    0x8b1402b5;                                              (* add x21, x21, x20 *)
    0x0b0402d6;                                              (* add w22, w22, w4 *)
    0x71000463;                                              (* subs w3, w3, #1 *)
    Z.lor 0x5400000a
      (Z.shiftl (Z.land (arm_loop_start - arm_branch_index) 0x7FFFF) 5); (* b.ge *)
    0xa8c157f5;                                              (* ldp x21, x22 *)
    0xa8c14ff3;                                              (* ldp x19, x20 *)
    0xd65f03c0 ].                                            (* ret *)

(** [code[i++] = w] on a [uint32_t *]: four little-endian bytes at [4 i]. *)
Fixpoint arm_stores (i : Z) (ws : list Z) : list event :=
  match ws with
  | [] => []
  | w :: ws' => EvStore (4 * i) (le_bytes 4 (wrap32 w)) :: arm_stores (i + 1) ws'
  end.

Definition x86_64_jit_template : list Z :=
  [ 0x53; 0x41; 0x54; 0x41; 0x55;
    0x49; 0xbc; 0x00; 0x00; 0x00; 0x00; 0x00; 0x00; 0x00; 0x00;
    0x41; 0xbd; 0x40; 0x01; 0x00; 0x00;
    0x44; 0x89; 0xc8;
    0x89; 0xc3;
    0xc1; 0xeb; 0x10;
    0x83; 0xe3; 0x7f;
    0x0f; 0xb6; 0x1c; 0x1e;
    0x41; 0x0f; 0xb6; 0x1c; 0x1c;
    0x88; 0x1f;
    0x4c; 0x01; 0xef;
    0x44; 0x01; 0xc0;
    0xff; 0xc9;
    0x79; 0xe3;
    0x41; 0x5d;
    0x41; 0x5c;
    0x5b;
    0xc3 ].

Definition X86_64_COLORMAP_OFFSET : Z := 7.
Definition X86_64_TEMPLATE_SIZE : Z := Z.of_nat (List.length x86_64_jit_template).

Definition apply_event (buf : Z -> Z) (e : event) : Z -> Z :=
  match e with
  | EvStore off bs => memcpy buf off bs
  | _ => buf
  end.

Definition apply_events (buf : Z -> Z) (es : list event) : Z -> Z :=
  fold_left apply_event es buf.

(** The side effects of one rewriting call, for a given backend. *)
Definition gen_events (t : target) (base colormap : Z) : list event :=
  match t with
  | Arm64Apple =>
      [EvWriteProtect false] ++ arm_stores 0 (arm_words colormap) ++
      [EvWriteProtect true;
       EvICacheInvalidate 0 (4 * Z.of_nat (List.length (arm_words colormap)));
       EvPublish base]
  | Arm64Other => arm_stores 0 (arm_words colormap) ++ [EvPublish base]
  | _ =>
      [EvStore 0 x86_64_jit_template;
       EvStore X86_64_COLORMAP_OFFSET (le_bytes 8 colormap);
       EvPublish base]
  end.

(** [R_JIT_GenerateDrawColumn(colormap)]: the new state and the effects. *)
Definition R_JIT_GenerateDrawColumn (t : target) (st : jit_state) (colormap : Z)
  : jit_state * list event :=
  match t with
  | Unsupported =>
      (mk_jit (jit_code st) (jit_buf st) None (jit_current_colormap st), [])
  | _ =>
      match jit_code st with
      | None => (st, [])
      | Some base =>
          if Z.eqb colormap (jit_current_colormap st)
             && is_set (jit_compiled_fn st)
          then (st, [])
          else
            let es := gen_events t base colormap in
            (mk_jit (Some base) (apply_events (jit_buf st) es) (Some base) colormap,
             es)
      end
  end.

Definition R_JIT_GetDrawColumn (st : jit_state) : option Z := jit_compiled_fn st.

(** ** Instruction fetch after a rewrite

    The core that ran the code before a rewrite may still hold it in its
    instruction cache.  x86_64 keeps instruction fetch coherent with
    stores.  On ARM64 a word written by a data store is guaranteed to be
    fetched anew only once its line has been invalidated
    ([sys_icache_invalidate], the [EvICacheInvalidate] of the Apple
    build); otherwise the architecture lets each instruction word be
    fetched from the old contents [old] or the new ones [new].  [code] is
    an instruction view the core may fetch from after the effects [es]. *)
Definition icache_invalidated (es : list event) (x : Z) : bool :=
  existsb (fun e => match e with
                    | EvICacheInvalidate off len => (off <=? x) && (x <? off + len)
                    | _ => false
                    end) es.

Definition fetch_allowed (t : target) (es : list event) (old new code : Z -> Z) : Prop :=
  forall k,
    (forall j, 0 <= j < 4 -> code (4 * k + j) = new (4 * k + j))
    \/ (t <> X86_64 /\ icache_invalidated es (4 * k) = false
        /\ forall j, 0 <= j < 4 -> code (4 * k + j) = old (4 * k + j)).

(** ** x86_64: decoder and interpreter for the instructions of the template

    Registers are numbered as in the encoding: rax=0, rcx=1, rdx=2, rbx=3,
    rsp=4, rbp=5, rsi=6, rdi=7, r8..r15 = 8..15.  Register values are
    64-bit, a 32-bit write zero-extends.  The stack is kept as a separate
    list of 64-bit words (the frame does not overlap the column data). *)

Inductive x86_instr :=
| XPush (r : Z)                      (** 50+r *)
| XPop (r : Z)                       (** 58+r *)
| XMovImm (w : bool) (r imm : Z)     (** B8+r id / REX.W B8+r io *)
| XMovRR (w : bool) (dst src : Z)    (** 89 /r, register form *)
| XAddRR (w : bool) (dst src : Z)    (** 01 /r, register form *)
| XShrImm (w : bool) (r imm : Z)     (** C1 /5 ib *)
| XAndImm (w : bool) (r imm : Z)     (** 83 /4 ib, imm8 sign-extended *)
| XMovzxLoad (dst base index scale : Z) (** 0F B6 /r, [base + index*scale] *)
| XStoreByte (base src : Z)          (** 88 /r, [base] <- r8 *)
| XDec (w : bool) (r : Z)            (** FF /1 *)
| XJns (rel : Z)                     (** 79 cb *)
| XRet.                              (** C3 *)

Definition sext8 (b : Z) : Z := if b <? 128 then b else b - 256.

Definition in_range (lo x hi : Z) : bool := (lo <=? x) && (x <=? hi).

(** Decode the instruction at [pc]: the instruction and its length. *)
Definition x86_decode (code : Z -> Z) (pc : Z) : option (x86_instr * Z) :=
  let b0 := code pc in
  let has_rex := in_range 0x40 b0 0x4F in
  let rex := if has_rex then b0 - 0x40 else 0 in
  let pre := if has_rex then 1 else 0 in
  let p := pc + pre in
  let W := Z.testbit rex 3 in
  let R := if Z.testbit rex 2 then 8 else 0 in
  let X := if Z.testbit rex 1 then 8 else 0 in
  let B := if Z.testbit rex 0 then 8 else 0 in
  let op := code p in
  let modrm := code (p + 1) in
  let md := Z.shiftr modrm 6 in
  let reg := Z.land (Z.shiftr modrm 3) 7 in
  let rm := Z.land modrm 7 in
  if in_range 0x50 op 0x57 then Some (XPush (op - 0x50 + B), pre + 1)
  else if in_range 0x58 op 0x5F then Some (XPop (op - 0x58 + B), pre + 1)
  else if in_range 0xB8 op 0xBF then
    if W then
      Some (XMovImm true (op - 0xB8 + B)
              (le_value (map (fun k => code (p + 1 + k)) [0;1;2;3;4;5;6;7])), pre + 9)
    else
      Some (XMovImm false (op - 0xB8 + B)
              (le_value (map (fun k => code (p + 1 + k)) [0;1;2;3])), pre + 5)
  else if op =? 0x89 then
    if md =? 3 then Some (XMovRR W (rm + B) (reg + R), pre + 2) else None
  else if op =? 0x01 then
    if md =? 3 then Some (XAddRR W (rm + B) (reg + R), pre + 2) else None
  else if op =? 0xC1 then
    if (md =? 3) && (reg =? 5) then Some (XShrImm W (rm + B) (code (p + 2)), pre + 3)
    else None
  else if op =? 0x83 then
    if (md =? 3) && (reg =? 4)
    then Some (XAndImm W (rm + B) (sext8 (code (p + 2))), pre + 3)
    else None
  else if op =? 0x0F then
    let modrm2 := code (p + 2) in
    let sib := code (p + 3) in
    let sbase := Z.land sib 7 in
    let sindex := Z.land (Z.shiftr sib 3) 7 in
    if (code (p + 1) =? 0xB6) && (Z.shiftr modrm2 6 =? 0) && (Z.land modrm2 7 =? 4)
       && negb (sbase =? 5) && negb ((sindex =? 4) && (X =? 0))
    then Some (XMovzxLoad (Z.land (Z.shiftr modrm2 3) 7 + R) (sbase + B)
                 (sindex + X) (2 ^ Z.shiftr sib 6), pre + 4)
    else None
  else if op =? 0x88 then
    (* without REX, byte registers 4..7 are ah, ch, dh, bh: not modelled *)
    if (md =? 0) && negb (rm =? 4) && negb (rm =? 5) && (has_rex || (reg <? 4))
    then Some (XStoreByte (rm + B) (reg + R), pre + 2) else None
  else if op =? 0xFF then
    if (md =? 3) && (reg =? 1) then Some (XDec W (rm + B), pre + 2) else None
  else if op =? 0x79 then Some (XJns (sext8 (code (p + 1))), pre + 2)
  else if op =? 0xC3 then Some (XRet, pre + 1)
  else None.

Record x86_state := mk_x86 {
  xregs : Z -> Z;
  xsf : bool;
  xzf : bool;
  xpc : Z;          (** offset from [jit_code] *)
  xmem : mem;
  xstack : list Z
}.

Inductive outcome (S : Type) := Next (s : S) | Halt (s : S) | Fault.
Arguments Next {S} s.
Arguments Halt {S} s.
Arguments Fault {S}.

Definition opsize (w : bool) : Z := if w then 64 else 32.

(** Write a result of width [opsize w] to a register (32-bit writes
    zero-extend). *)
Definition x86_write (s : x86_state) (r v : Z) (pc : Z) : x86_state :=
  mk_x86 (upd (xregs s) r v) (xsf s) (xzf s) pc (xmem s) (xstack s).

Definition x86_write_flags (s : x86_state) (w : bool) (r v : Z) (pc : Z)
  : x86_state :=
  mk_x86 (upd (xregs s) r v) (Z.testbit v (opsize w - 1)) (v =? 0) pc
         (xmem s) (xstack s).

Definition x86_exec (i : x86_instr) (len : Z) (s : x86_state) : outcome x86_state :=
  let rs := xregs s in
  let next := xpc s + len in
  let md (w : bool) (x : Z) := x mod 2 ^ opsize w in
  match i with
  | XPush r => Next (mk_x86 rs (xsf s) (xzf s) next (xmem s) (rs r :: xstack s))
  | XPop r =>
      match xstack s with
      | v :: stk => Next (mk_x86 (upd rs r v) (xsf s) (xzf s) next (xmem s) stk)
      | [] => Fault
      end
  | XMovImm w r imm => Next (x86_write s r (md w imm) next)
  | XMovRR w d r => Next (x86_write s d (md w (rs r)) next)
  | XAddRR w d r => Next (x86_write_flags s w d (md w (md w (rs d) + md w (rs r))) next)
  | XShrImm w r c =>
      let c' := Z.land c (if w then 63 else 31) in
      let v := Z.shiftr (md w (rs r)) c' in
      if c' =? 0 then Next (x86_write s r v next)
      else Next (x86_write_flags s w r v next)
  | XAndImm w r imm => Next (x86_write_flags s w r (Z.land (md w (rs r)) (md w imm)) next)
  | XMovzxLoad d b ix sc =>
      Next (x86_write s d (load8 (xmem s) (rs b + rs ix * sc)) next)
  | XStoreByte b r =>
      Next (mk_x86 rs (xsf s) (xzf s) next (store8 (xmem s) (rs b) (rs r)) (xstack s))
  | XDec w r => Next (x86_write_flags s w r (md w (md w (rs r) - 1)) next)
  | XJns rel =>
      Next (mk_x86 rs (xsf s) (xzf s) (if xsf s then next else next + rel)
                   (xmem s) (xstack s))
  | XRet => Halt s
  end.

(** Run with [fuel] instructions at most; the final state and the number
    of instructions executed, the last one being [ret]. *)
Fixpoint x86_run (fuel : nat) (code : Z -> Z) (s : x86_state)
  : option (x86_state * nat) :=
  match fuel with
  | O => None
  | S f =>
      match x86_decode code (xpc s) with
      | None => None
      | Some (i, len) =>
          match x86_exec i len s with
          | Fault => None
          | Halt s' => Some (s', 1%nat)
          | Next s' =>
              match x86_run f code s' with
              | Some (s'', n) => Some (s'', S n)
              | None => None
              end
          end
      end
  end.

(** The call [fn(dest, source, colormap, count, fracstep, frac)] under the
    System V ABI: arguments in rdi, rsi, rdx, ecx, r8d, r9d. *)
Definition x86_call_state (rs : Z -> Z) (m : mem) (stk : list Z)
  (dest source colormap count fracstep frac : Z) : x86_state :=
  mk_x86 (upd (upd (upd (upd (upd (upd rs 7 (wrap64 dest)) 6 (wrap64 source))
                 2 (wrap64 colormap)) 1 (wrap64 count)) 8 (wrap64 fracstep))
              9 (wrap64 frac))
         false false 0 m stk.

(** ** The column loop of the specification

    Spec-side reference (the per-iteration semantics of section 4.2): [n]
    iterations, iteration [k] reading [source[(frac_k >> 16) & mask]] and
    writing through the table at [cmap]; [mask] is 127 in the spec. *)
Fixpoint column_loop (mask : Z) (n : nat) (m : mem)
  (dest source cmap frac fracstep : Z) : mem :=
  match n with
  | O => m
  | S n' =>
      let texIndex := Z.land (Z.shiftr frac 16) mask in
      let texel := load8 m (source + texIndex) in
      let pixel := load8 m (cmap + texel) in
      column_loop mask n' (store8 m dest pixel) (wrap64 (dest + 320)) source cmap
        (wrap32 (frac + fracstep)) fracstep
  end.

(** The reference loop for [count >= 0]: [count + 1] iterations. *)
Definition ref_draw_column (m : mem) (dest source cmap count fracstep frac : Z) : mem :=
  column_loop 127 (Z.to_nat count + 1) m (wrap64 dest) source cmap (wrap32 frac) fracstep.

(** ** ARM64: decoder and interpreter for the emitted instruction classes

    Registers x0..x30 as a function; register number 31 is the zero
    register or the stack pointer depending on the field, as in the
    architecture.  The stack is a separate list of 64-bit words, its head
    at the lowest address; [stp]/[ldp] are modelled for base [sp] with a
    16-byte frame.  A 32-bit (W) write zero-extends into the X register. *)

Inductive arm_instr :=
| AStpPre (rt rt2 off : Z)               (** stp Xt, Xt2, [sp, #off]! *)
| ALdpPost (rt rt2 off : Z)              (** ldp Xt, Xt2, [sp], #off *)
| AMovz (sf : bool) (rd imm hw : Z)
| AMovk (sf : bool) (rd imm hw : Z)
| AOrrReg (sf : bool) (rd rn rm sh : Z)  (** orr, LSL #sh *)
| AUbfm (sf : bool) (rd rn immr imms : Z)
| AAndImm (sf : bool) (rd rn mask : Z)   (** mask: the decoded bitmask *)
| ALdrbReg (rt rn rm : Z)                (** ldrb Wt, [Xn, Xm] *)
| AStrbImm (rt rn off : Z)               (** strb Wt, [Xn, #off] *)
| AAddReg (sf : bool) (rd rn rm sh : Z)  (** add, LSL #sh *)
| ASubsImm (sf : bool) (rd rn imm : Z)
| ABcond (cond off : Z)
| ARet (rn : Z).

(** Bit field [w<lo + width - 1 : lo>]. *)
Definition fld (w lo width : Z) : Z := Z.land (Z.shiftr w lo) (Z.ones width).

Definition sext (width x : Z) : Z :=
  if x <? 2 ^ (width - 1) then x else x - 2 ^ width.

Fixpoint replicate_bits (k : nat) (esize elem : Z) : Z :=
  match k with
  | O => 0
  | S k' => Z.lor elem (Z.shiftl (replicate_bits k' esize elem) esize)
  end.

(** [DecodeBitMasks(N, imms, immr, TRUE)] of the architecture manual. *)
Definition decode_bit_masks (n imms immr datasize : Z) : option Z :=
  let combined := Z.lor (Z.shiftl n 6) (Z.land (Z.lnot imms) 63) in
  if combined =? 0 then None else
  let len := Z.log2 combined in
  if len <? 1 then None else
  let levels := Z.ones len in
  let s := Z.land imms levels in
  let r := Z.land immr levels in
  let esize := 2 ^ len in
  if (s =? levels) || (datasize <? esize) then None else
  let welem := Z.ones (s + 1) in
  let elem := Z.land (Z.lor (Z.shiftr welem r) (Z.shiftl welem (esize - r)))
                     (Z.ones esize) in
  Some (replicate_bits (Z.to_nat (datasize / esize)) esize elem).

Definition arm_decode (w : Z) : option arm_instr :=
  let sf := Z.testbit w 31 in
  let rd := fld w 0 5 in
  let rn := fld w 5 5 in
  let rm := fld w 16 5 in
  let op23 := fld w 23 6 in
  let opc := fld w 29 2 in
  if fld w 22 10 =? 0x2A6 then
    if rn =? 31 then Some (AStpPre rd (fld w 10 5) (8 * sext 7 (fld w 15 7)))
    else None
  else if fld w 22 10 =? 0x2A3 then
    if rn =? 31 then Some (ALdpPost rd (fld w 10 5) (8 * sext 7 (fld w 15 7)))
    else None
  else if op23 =? 0x25 then
    let hw := fld w 21 2 in
    if negb sf && (2 <=? hw) then None
    else if opc =? 2 then Some (AMovz sf rd (fld w 5 16) hw)
    else if opc =? 3 then Some (AMovk sf rd (fld w 5 16) hw)
    else None
  else if (fld w 24 5 =? 0x0A) && (opc =? 1) && negb (Z.testbit w 21)
          && (fld w 22 2 =? 0) then
    if negb sf && Z.testbit w 15 then None
    else Some (AOrrReg sf rd rn rm (fld w 10 6))
  else if (op23 =? 0x26) && (opc =? 2) then
    if Bool.eqb (Z.testbit w 22) sf then
      Some (AUbfm sf rd rn (fld w 16 6) (fld w 10 6))
    else None
  else if (op23 =? 0x24) && (opc =? 0) then
    if negb sf && Z.testbit w 22 then None else
    match decode_bit_masks (if Z.testbit w 22 then 1 else 0) (fld w 10 6)
            (fld w 16 6) (if sf then 64 else 32) with
    | Some mask => Some (AAndImm sf rd rn mask)
    | None => None
    end
  else if (fld w 21 11 =? 0x1C3) && (fld w 10 2 =? 2) then
    if (fld w 13 3 =? 3) && negb (Z.testbit w 12) && negb (rn =? 31)
    then Some (ALdrbReg rd rn rm) else None
  else if fld w 22 10 =? 0xE4 then
    if rn =? 31 then None else Some (AStrbImm rd rn (fld w 10 12))
  else if (fld w 24 5 =? 0x0B) && (opc =? 0) && negb (Z.testbit w 21)
          && (fld w 22 2 =? 0) then
    if negb sf && Z.testbit w 15 then None
    else Some (AAddReg sf rd rn rm (fld w 10 6))
  else if (op23 =? 0x22) && (opc =? 3) then
    if rn =? 31 then None
    else Some (ASubsImm sf rd rn
                 (if Z.testbit w 22 then Z.shiftl (fld w 10 12) 12 else fld w 10 12))
  else if (fld w 24 8 =? 0x54) && negb (Z.testbit w 4) then
    Some (ABcond (fld w 0 4) (4 * sext 19 (fld w 5 19)))
  else if Z.land w 0xFFFFFC1F =? 0xD65F0000 then Some (ARet rn)
  else None.

(** Machine state.  As on x86_64, the words pushed by [stp] are kept in a
    separate list, not written to [amem]: [amem] stands for the memory
    other than the stack area below [sp]. *)
Record arm_state := mk_arm {
  aregs : Z -> Z;
  an : bool; az : bool; ac : bool; av : bool;
  apc : Z;          (** offset from [jit_code] *)
  amem : mem;
  astack : list Z
}.

Definition datasize (sf : bool) : Z := if sf then 64 else 32.

(** Read a register where number 31 is the zero register. *)
Definition xr (rs : Z -> Z) (r : Z) : Z := if r =? 31 then 0 else rs r.

Definition arm_set (s : arm_state) (rd v pc : Z) : arm_state :=
  mk_arm (if rd =? 31 then aregs s else upd (aregs s) rd v)
         (an s) (az s) (ac s) (av s) pc (amem s) (astack s).

Definition cond_holds (cond : Z) (n z c v : bool) : bool :=
  let base :=
    match Z.shiftr cond 1 with
    | 0 => z
    | 1 => c
    | 2 => n
    | 3 => v
    | 4 => c && negb z
    | 5 => Bool.eqb n v
    | 6 => negb z && Bool.eqb n v
    | _ => true
    end in
  if Z.odd cond && negb (cond =? 15) then negb base else base.

Definition arm_exec (i : arm_instr) (s : arm_state) : outcome arm_state :=
  let rs := aregs s in
  let next := apc s + 4 in
  let md (sf : bool) (x : Z) := x mod 2 ^ datasize sf in
  match i with
  | AStpPre rt rt2 off =>
      if off =? -16 then
        Next (mk_arm rs (an s) (az s) (ac s) (av s) next (amem s)
                     (xr rs rt :: xr rs rt2 :: astack s))
      else Fault
  | ALdpPost rt rt2 off =>
      (* for rt = rt2 the architecture makes this CONSTRAINED UNPREDICTABLE
         (UNDEFINED, a NOP, or an UNKNOWN value in rt); this takes the last
         resolution, with the second word as the value.  [arm_exec_cu]
         below leaves the choice open. *)
      match astack s with
      | v1 :: v2 :: stk =>
          if off =? 16 then
            Next (mk_arm (upd (upd rs rt v1) rt2 v2) (an s) (az s) (ac s) (av s)
                         next (amem s) stk)
          else Fault
      | _ => Fault
      end
  | AMovz sf rd imm hw => Next (arm_set s rd (Z.shiftl imm (16 * hw)) next)
  | AMovk sf rd imm hw =>
      let old := md sf (xr rs rd) in
      let cleared := Z.land old (Z.lnot (Z.shiftl 0xFFFF (16 * hw))) in
      Next (arm_set s rd (md sf (Z.lor cleared (Z.shiftl imm (16 * hw)))) next)
  | AOrrReg sf rd rn rm sh =>
      Next (arm_set s rd (md sf (Z.lor (md sf (xr rs rn))
                                        (Z.shiftl (md sf (xr rs rm)) sh))) next)
  | AUbfm sf rd rn immr imms =>
      let src := md sf (xr rs rn) in
      let v := if immr <=? imms
               then Z.land (Z.shiftr src immr) (Z.ones (imms - immr + 1))
               else Z.shiftl (Z.land src (Z.ones (imms + 1))) (datasize sf - immr) in
      Next (arm_set s rd (md sf v) next)
  | AAndImm sf rd rn mask =>
      (* rd = 31 would be sp here; not emitted *)
      Next (arm_set s rd (Z.land (md sf (xr rs rn)) mask) next)
  | ALdrbReg rt rn rm =>
      Next (arm_set s rt (load8 (amem s) (rs rn + xr rs rm)) next)
  | AStrbImm rt rn off =>
      Next (mk_arm rs (an s) (az s) (ac s) (av s) next
                   (store8 (amem s) (rs rn + off) (xr rs rt)) (astack s))
  | AAddReg sf rd rn rm sh =>
      Next (arm_set s rd (md sf (md sf (xr rs rn) + md sf (Z.shiftl (xr rs rm) sh))) next)
  | ASubsImm sf rd rn imm =>
      let x := md sf (rs rn) in
      let r := md sf (x - imm) in
      let sx := sext (datasize sf) x in
      let n := Z.testbit r (datasize sf - 1) in
      let z := r =? 0 in
      let c := imm <=? x in
      let v := negb (in_range (- 2 ^ (datasize sf - 1)) (sx - imm)
                              (2 ^ (datasize sf - 1) - 1)) in
      let s' := arm_set s rd r next in
      Next (mk_arm (aregs s') n z c v next (amem s') (astack s'))
  | ABcond cond off =>
      Next (mk_arm rs (an s) (az s) (ac s) (av s)
                   (if cond_holds cond (an s) (az s) (ac s) (av s)
                    then apc s + off else next)
                   (amem s) (astack s))
  | ARet _ => Halt s
  end.

(** Instruction fetch: the little-endian word at [pc]. *)
Definition arm_fetch (code : Z -> Z) (pc : Z) : Z :=
  le_value [code pc; code (pc + 1); code (pc + 2); code (pc + 3)].

(** Run from the instruction view [code]: the words the core fetches,
    which after a rewrite need not be the bytes last stored (see
    [fetch_allowed]).  The [ldp] of one register twice takes the
    resolution of [arm_exec]; [arm_run_cu] below leaves it open. *)
Fixpoint arm_run (fuel : nat) (code : Z -> Z) (s : arm_state)
  : option (arm_state * nat) :=
  match fuel with
  | O => None
  | S f =>
      match arm_decode (arm_fetch code (apc s)) with
      | None => None
      | Some i =>
          match arm_exec i s with
          | Fault => None
          | Halt s' => Some (s', 1%nat)
          | Next s' =>
              match arm_run f code s' with
              | Some (s'', n) => Some (s'', S n)
              | None => None
              end
          end
      end
  end.

(** The call under AAPCS64: x0 = dest, x1 = source, x2 = colormap,
    w3 = count, w4 = fracstep, w5 = frac. *)
Definition arm_call_state (rs : Z -> Z) (m : mem) (stk : list Z)
  (dest source colormap count fracstep frac : Z) : arm_state :=
  mk_arm (upd (upd (upd (upd (upd (upd rs 0 (wrap64 dest)) 1 (wrap64 source))
                 2 (wrap64 colormap)) 3 (wrap64 count)) 4 (wrap64 fracstep))
              5 (wrap64 frac))
         false false false false 0 m stk.

(** [ldp Xt, Xt, [sp], #16], with the same register twice, is CONSTRAINED
    UNPREDICTABLE: the architecture lets it be UNDEFINED (the call traps),
    execute as a NOP (no load, no writeback of sp), or load with an
    UNKNOWN value in Xt (sp written back).  [pick] gives the resolution of
    each executed instance, as a function of the state it executes in. *)
Inductive ldp_cu := LdpUndefined | LdpNop | LdpUnknown (v : Z).

Definition arm_exec_cu (pick : arm_state -> ldp_cu) (i : arm_instr) (s : arm_state)
  : outcome arm_state :=
  match i with
  | ALdpPost rt rt2 off =>
      if rt =? rt2 then
        match pick s with
        | LdpUndefined => Fault
        | LdpNop =>
            Next (mk_arm (aregs s) (an s) (az s) (ac s) (av s) (apc s + 4)
                         (amem s) (astack s))
        | LdpUnknown v =>
            match astack s with
            | _ :: _ :: stk =>
                if off =? 16 then
                  Next (mk_arm (upd (aregs s) rt v) (an s) (az s) (ac s) (av s)
                               (apc s + 4) (amem s) stk)
                else Fault
            | _ => Fault
            end
        end
      else arm_exec i s
  | _ => arm_exec i s
  end.

(** [arm_run] with every resolution of the unpredictable [ldp] left open. *)
Fixpoint arm_run_cu (pick : arm_state -> ldp_cu) (fuel : nat) (code : Z -> Z)
  (s : arm_state) : option (arm_state * nat) :=
  match fuel with
  | O => None
  | S f =>
      match arm_decode (arm_fetch code (apc s)) with
      | None => None
      | Some i =>
          match arm_exec_cu pick i s with
          | Fault => None
          | Halt s' => Some (s', 1%nat)
          | Next s' =>
              match arm_run_cu pick f code s' with
              | Some (s'', n) => Some (s'', S n)
              | None => None
              end
          end
      end
  end.

(** ** The x86_64 code in the buffer, disassembled *)

(** Linear disassembly of the template patched with [a]:
    offset, instruction, length. *)
Definition x86_listing (a : Z) : list (Z * (x86_instr * Z)) :=
  [ (0, (XPush 3, 1)); (1, (XPush 12, 2)); (3, (XPush 13, 2));
    (5, (XMovImm true 12 a, 10)); (15, (XMovImm false 13 320, 6));
    (21, (XMovRR false 0 9, 3));
    (24, (XMovRR false 3 0, 2)); (26, (XShrImm false 3 16, 3));
    (29, (XAndImm false 3 127, 3)); (32, (XMovzxLoad 3 6 3 1, 4));
    (36, (XMovzxLoad 3 12 3 1, 5)); (41, (XStoreByte 7 3, 2));
    (43, (XAddRR true 7 13, 3)); (46, (XAddRR false 0 8, 3));
    (49, (XDec false 1, 2)); (51, (XJns (-29), 2));
    (53, (XPop 13, 2)); (55, (XPop 12, 2)); (57, (XPop 3, 1)); (58, (XRet, 1)) ].

Fixpoint assoc {A : Type} (k : Z) (l : list (Z * A)) : option A :=
  match l with
  | [] => None
  | (k', v) :: l' => if Z.eqb k k' then Some v else assoc k l'
  end.

Definition x86_code_ok (code : Z -> Z) (a : Z) : Prop :=
  forall pc d, assoc pc (x86_listing a) = Some d -> x86_decode code pc = Some d.

(** ** The ARM64 code in the buffer, disassembled

    The 21 words of [arm_words a], one instruction each, as decoded by
    [arm_decode]; the loop body is words 9 to 17. *)
Definition arm_prog (a : Z) : list arm_instr :=
  [ AStpPre 19 19 (-16); AStpPre 21 21 (-16);
    AMovz true 19 (Z.land a 0xFFFF) 0;
    AMovk true 19 (Z.land (Z.shiftr a 16) 0xFFFF) 1;
    AMovk true 19 (Z.land (Z.shiftr a 32) 0xFFFF) 2;
    AMovk true 19 (Z.land (Z.shiftr a 48) 0xFFFF) 3;
    AMovz true 20 320 0; AOrrReg true 21 31 0 0; AOrrReg false 22 31 5 0;
    AUbfm false 8 22 16 19; AAndImm false 8 8 127;
    ALdrbReg 9 1 8; ALdrbReg 9 19 9; AStrbImm 9 21 0;
    AAddReg true 21 21 20 0; AAddReg false 22 22 4 0;
    ASubsImm false 3 3 1; ABcond 10 (-32);
    ALdpPost 21 21 16; ALdpPost 19 19 16; ARet 30 ].

(** The instruction of a listing at byte offset [pc]. *)
Definition arm_at (pc : Z) (l : list arm_instr) : option arm_instr :=
  if (0 <=? pc) && (pc mod 4 =? 0) then nth_error l (Z.to_nat (pc / 4)) else None.

Definition arm_code_ok (code : Z -> Z) (a : Z) : Prop :=
  forall pc i, arm_at pc (arm_prog a) = Some i -> arm_decode (arm_fetch code pc) = Some i.

(** ** Frame hooks, mode controller and CSV log

    [struct timespec] as seconds and nanoseconds.  The source computes
    elapsed times as [double] (seconds in [R_JIT_FrameStart], milliseconds in
    [R_JIT_FrameEnd]).  The auto-switch comparison and the statistics keep
    them here as exact integers in nanoseconds.  For the comparison
    [elapsed >= switch_interval_sec] with the interval 1.0 the two agree:
    an elapsed time of [k <> 10^9] ns is at least 1 ns away from 1.0, far
    above the rounding error of [ds + dn / 1000000000.0] for the durations
    at hand, and [k = 10^9] is [ds = 1], [dn = 0], computed exactly.  The
    log rows, whose printed digits show the rounding, compute the [double]
    values as the source does (IEEE 754 binary64, [SpecFloat] with 53 bits
    of precision, rounding to nearest even). *)
Record timespec := mk_ts { tv_sec : Z; tv_nsec : Z }.

(** [(b.tv_sec - a.tv_sec) * 10^9 + (b.tv_nsec - a.tv_nsec)]. *)
Definition ns_between (a b : timespec) : Z :=
  (tv_sec b - tv_sec a) * 1000000000 + (tv_nsec b - tv_nsec a).

(** The conversion of a [long] to [double]. *)
Definition d_of_Z (n : Z) : SpecFloat.spec_float :=
  SpecFloat.binary_normalize 53 1024 n 0 false.

(** [(b.tv_sec - a.tv_sec) * 1000.0 + (b.tv_nsec - a.tv_nsec) / 1000000.0]
    in [double], as [R_JIT_FrameEnd] computes [elapsed_ms] and
    [timestamp_ms]. *)
Definition ms_between (a b : timespec) : SpecFloat.spec_float :=
  SpecFloat.SFadd 53 1024
    (SpecFloat.SFmul 53 1024 (d_of_Z (tv_sec b - tv_sec a)) (d_of_Z 1000))
    (SpecFloat.SFdiv 53 1024 (d_of_Z (tv_nsec b - tv_nsec a)) (d_of_Z 1000000)).

(** [jit_stats_t]: [uint64_t] counters (wrapping) and times, here in ns. *)
Record jit_stats_t := mk_stats {
  jit_calls : Z; branch_calls : Z;
  jit_frames : Z; branch_frames : Z;
  jit_time_ns : Z; branch_time_ns : Z
}.

Definition stats_zero : jit_stats_t := mk_stats 0 0 0 0 0 0.

(** The open [log_file]: the lines written so far, in order, and how many
    of them have been pushed to the file by [fflush]. *)
Record log_t := mk_log { log_rows : list string; log_flushed : nat }.

(** The globals and function-local statics of r_jit.c outside the JIT
    buffer.  [h_program_start] is the [static program_start] of
    [R_JIT_FrameEnd], [h_flush_counter] its [static flush_counter]. *)
Record harness := mk_h {
  h_jit : jit_state;
  h_stats : jit_stats_t;
  h_mode : bool;                 (** [jit_mode_enabled] *)
  h_frame_start : timespec;      (** [frame_start_time] *)
  h_frame_calls : Z;             (** [jit_frame_calls] *)
  h_last_switch : timespec;      (** [last_switch_time] *)
  h_auto : bool;                 (** [auto_switch_enabled] *)
  h_interval_ns : Z;             (** [switch_interval_sec], in ns *)
  h_log : option log_t;          (** [log_file], [None] for NULL *)
  h_flush_counter : Z;
  h_program_start : timespec
}.

(** Process start: the static initialisers. *)
Definition h_initial (buf : Z -> Z) : harness :=
  mk_h (mk_jit None buf None 0) stats_zero false (mk_ts 0 0) 0 (mk_ts 0 0)
       true 1000000000 None 0 (mk_ts 0 0).

Section Csv.
Local Open Scope string_scope.

(** Decimal rendering of a nonnegative integer. *)
Fixpoint dec_digits (fuel : nat) (n : Z) (acc : string) : string :=
  match fuel with
  | O => acc
  | S f =>
      let acc' := String (ascii_of_nat (48 + Z.to_nat (n mod 10))%nat) acc in
      if (n <? 10)%Z then acc' else dec_digits f (n / 10) acc'
  end.

Definition dec_string (n : Z) : string := dec_digits 64 n EmptyString.

Fixpoint zeros (k : nat) : string :=
  match k with O => EmptyString | S k' => String "0"%char (zeros k') end.

(** [d] decimal digits of [x], left-padded with zeros. *)
Definition pad_digits (d : nat) (x : Z) : string :=
  let s := dec_string x in zeros (d - String.length s)%nat ++ s.

(** [q] = [num / den] rounded to nearest, ties to even ([den > 0]). *)
Definition round_div_even (num den : Z) : Z :=
  let q := (num / den)%Z in
  let r := (num mod den)%Z in
  if (den <? 2 * r)%Z then (q + 1)%Z
  else if (2 * r =? den)%Z then (if Z.even q then q else (q + 1)%Z)
  else q.

(** [printf("%.<d>f", x)] for a [double] [x], as glibc prints it: the exact
    binary value rounded to [d] decimals, to nearest with ties to even (the
    default rounding mode); a set sign bit prints a minus sign.  ([SpecFloat]
    has no sign on NaN, printed [nan] here; no NaN or infinity arises from
    the computations of [R_JIT_FrameEnd].) *)
Definition printf_f (d : nat) (x : SpecFloat.spec_float) : string :=
  let digits (n : Z) :=
    dec_string (n / 10 ^ Z.of_nat d)%Z ++
    (match d with O => EmptyString
     | _ => "." ++ pad_digits d (n mod 10 ^ Z.of_nat d)%Z end) in
  match x with
  | SpecFloat.S754_zero sgn => (if sgn then "-" else EmptyString) ++ digits 0%Z
  | SpecFloat.S754_infinity sgn => if sgn then "-inf" else "inf"
  | SpecFloat.S754_nan => "nan"
  | SpecFloat.S754_finite sgn m e =>
      (if sgn then "-" else EmptyString) ++
      digits (if (0 <=? e)%Z then (Z.pos m * 2 ^ e * 10 ^ Z.of_nat d)%Z
              else round_div_even (Z.pos m * 10 ^ Z.of_nat d) (2 ^ (- e)))
  end.

Definition newline : string := String (ascii_of_nat 10) EmptyString.

(** [fprintf(log_file, "timestamp_ms,mode,frame_time_ms,draw_calls\n")]. *)
Definition csv_header : string := "timestamp_ms,mode,frame_time_ms,draw_calls" ++ newline.

(** [fprintf(log_file, "%.2f,%s,%.4f,%llu\n", timestamp_ms, mode, elapsed_ms, calls)]. *)
Definition csv_row (ts_ms : SpecFloat.spec_float) (mode : bool)
  (elapsed_ms : SpecFloat.spec_float) (calls : Z) : string :=
  printf_f 2 ts_ms ++ "," ++ (if mode then "JIT" else "BRANCH") ++ "," ++
  printf_f 4 elapsed_ms ++ "," ++ dec_string calls ++ newline.

End Csv.

(** [R_JIT_Init]: [alloc] is the result of [mmap] ([None] for
    [MAP_FAILED]), [log_ok] whether [fopen] succeeded, [now] the reading of
    [clock_gettime].  A new anonymous mapping is zero-filled.
    [jit_compiled_fn], [auto_switch_enabled] and the statics of the hooks
    are not touched. *)
Definition R_JIT_Init (alloc : option Z) (log_ok : bool) (now : timespec)
  (h : harness) : harness :=
  let j := h_jit h in
  mk_h (mk_jit alloc (match alloc with Some _ => fun _ => 0 | None => jit_buf j end)
               (jit_compiled_fn j) (jit_current_colormap j))
       stats_zero false (h_frame_start h) (h_frame_calls h) now (h_auto h)
       (h_interval_ns h)
       (if log_ok then Some (mk_log [csv_header] 1) else None)
       (h_flush_counter h) (h_program_start h).

(** [R_JIT_Shutdown]: unmap and close; [jit_compiled_fn] is not cleared. *)
Definition R_JIT_Shutdown (h : harness) : harness :=
  let j := h_jit h in
  mk_h (mk_jit None (jit_buf j) (jit_compiled_fn j) (jit_current_colormap j))
       (h_stats h) (h_mode h) (h_frame_start h) (h_frame_calls h)
       (h_last_switch h) (h_auto h) (h_interval_ns h) None
       (h_flush_counter h) (h_program_start h).

Definition R_JIT_Toggle (h : harness) : harness :=
  mk_h (h_jit h) (h_stats h) (negb (h_mode h)) (h_frame_start h) (h_frame_calls h)
       (h_last_switch h) (h_auto h) (h_interval_ns h) (h_log h)
       (h_flush_counter h) (h_program_start h).

Definition R_JIT_ToggleAutoSwitch (now : timespec) (h : harness) : harness :=
  let auto := negb (h_auto h) in
  mk_h (h_jit h) (h_stats h) (h_mode h) (h_frame_start h) (h_frame_calls h)
       (if auto then now else h_last_switch h) auto (h_interval_ns h) (h_log h)
       (h_flush_counter h) (h_program_start h).

(** [R_JIT_FrameStart]: [t1] and [t2] are its two clock readings
    ([frame_start_time] and [now]).  The debug counters only print. *)
Definition R_JIT_FrameStart (t1 t2 : timespec) (h : harness) : harness :=
  let switch := h_auto h && (h_interval_ns h <=? ns_between (h_last_switch h) t2) in
  mk_h (h_jit h) (h_stats h) (if switch then negb (h_mode h) else h_mode h)
       t1 0 (if switch then t2 else h_last_switch h) (h_auto h) (h_interval_ns h)
       (h_log h) (h_flush_counter h) (h_program_start h).

(** The statistics update of [R_JIT_FrameEnd]. *)
Definition add_frame (mode : bool) (calls elapsed : Z) (s : jit_stats_t) : jit_stats_t :=
  if mode then
    mk_stats (wrap64 (jit_calls s + calls)) (branch_calls s)
             (wrap64 (jit_frames s + 1)) (branch_frames s)
             (jit_time_ns s + elapsed) (branch_time_ns s)
  else
    mk_stats (jit_calls s) (wrap64 (branch_calls s + calls))
             (jit_frames s) (wrap64 (branch_frames s + 1))
             (jit_time_ns s) (branch_time_ns s + elapsed).

(** [R_JIT_FrameEnd] with [end_time = t]. *)
Definition R_JIT_FrameEnd (t : timespec) (h : harness) : harness :=
  let elapsed := ns_between (h_frame_start h) t in
  let ps := if tv_sec (h_program_start h) =? 0 then t else h_program_start h in
  let stats := add_frame (h_mode h) (h_frame_calls h) elapsed (h_stats h) in
  let '(log, fc) :=
    match h_log h with
    | None => (None, h_flush_counter h)
    | Some l =>
        let rows := log_rows l ++ [csv_row (ms_between ps t) (h_mode h)
                                          (ms_between (h_frame_start h) t) (h_frame_calls h)] in
        let fc := h_flush_counter h + 1 in
        if 100 <=? fc then (Some (mk_log rows (List.length rows)), 0)
        else (Some (mk_log rows (log_flushed l)), fc)
    end in
  mk_h (h_jit h) stats (h_mode h) (h_frame_start h) (h_frame_calls h)
       (h_last_switch h) (h_auto h) (h_interval_ns h) log fc ps.

(** Modelled from the spec: the dispatch point of [R_DrawColumn] (r_draw.c
    is not part of the sources).  Each call counts once in [jit_frame_calls]
    and goes to the compiled code iff the mode is JIT and
    [R_JIT_GetDrawColumn()] is not NULL (section 4.3, fallback rule). *)
Inductive path := Compiled (entry : Z) | Reference.

Definition R_DrawColumn (h : harness) : harness * path :=
  let p := match h_mode h, R_JIT_GetDrawColumn (h_jit h) with
           | true, Some e => Compiled e
           | _, _ => Reference
           end in
  (mk_h (h_jit h) (h_stats h) (h_mode h) (h_frame_start h)
        (wrap64 (h_frame_calls h + 1)) (h_last_switch h) (h_auto h) (h_interval_ns h)
        (h_log h) (h_flush_counter h) (h_program_start h), p).

(** Calls into r_jit.c, as issued by the game. *)
Inductive op :=
| OpInit (alloc : option Z) (log_ok : bool) (now : timespec)
| OpShutdown
| OpToggle
| OpToggleAutoSwitch (now : timespec)
| OpFrameStart (t1 t2 : timespec)
| OpFrameEnd (t : timespec)
| OpGenerate (colormap : Z)
| OpDraw.

(** What a call returns or does that the caller can observe. *)
Inductive output := ODraw (p : path) | OGen (es : list event).

Definition step (t : target) (h : harness) (o : op) : harness * list output :=
  match o with
  | OpInit alloc log_ok now => (R_JIT_Init alloc log_ok now h, [])
  | OpShutdown => (R_JIT_Shutdown h, [])
  | OpToggle => (R_JIT_Toggle h, [])
  | OpToggleAutoSwitch now => (R_JIT_ToggleAutoSwitch now h, [])
  | OpFrameStart t1 t2 => (R_JIT_FrameStart t1 t2 h, [])
  | OpFrameEnd t => (R_JIT_FrameEnd t h, [])
  | OpGenerate cm =>
      let '(j, es) := R_JIT_GenerateDrawColumn t (h_jit h) cm in
      (mk_h j (h_stats h) (h_mode h) (h_frame_start h) (h_frame_calls h)
            (h_last_switch h) (h_auto h) (h_interval_ns h) (h_log h)
            (h_flush_counter h) (h_program_start h), [OGen es])
  | OpDraw => let '(h', p) := R_DrawColumn h in (h', [ODraw p])
  end.

Fixpoint run_ops (t : target) (h : harness) (ops : list op) : harness * list output :=
  match ops with
  | [] => (h, [])
  | o :: ops' =>
      let '(h1, out1) := step t h o in
      let '(h2, out2) := run_ops t h1 ops' in
      (h2, out1 ++ out2)
  end.

(** ** Observations used in the statements *)

(** A store event lies within [[lo, hi)] of the buffer. *)
Definition store_within (lo hi : Z) (e : event) : bool :=
  match e with
  | EvStore off bs => (lo <=? off) && (off + Z.of_nat (List.length bs) <=? hi)
  | _ => true
  end.

Definition is_store (e : event) : bool :=
  match e with EvStore _ _ => true | _ => false end.

(** The outcome of a run shifted by [k] earlier instructions. *)
Definition run_shift (k : nat) (o : option (arm_state * nat)) : option (arm_state * nat) :=
  match o with Some (s, n) => Some (s, (k + n)%nat) | None => None end.

(** An [ldp] of one register twice. *)
Definition ldp_same (i : arm_instr) : bool :=
  match i with ALdpPost rt rt2 _ => rt =? rt2 | _ => false end.

(** Single instructions that fall through and are not an [ldp] of one
    register twice: they run the same under every resolution. *)
Definition arm_step_plain (code : Z -> Z) (s : arm_state) : option arm_state :=
  match arm_decode (arm_fetch code (apc s)) with
  | Some i =>
      if ldp_same i then None
      else match arm_exec i s with Next s' => Some s' | _ => None end
  | None => None
  end.

Fixpoint arm_steps_plain (n : nat) (code : Z -> Z) (s : arm_state) : option arm_state :=
  match n with
  | O => Some s
  | S n' => match arm_step_plain code s with
            | Some s' => arm_steps_plain n' code s'
            | None => None
            end
  end.

(** Single instructions that fall through (no [ret], no fault). *)
Definition arm_step (code : Z -> Z) (s : arm_state) : option arm_state :=
  match arm_decode (arm_fetch code (apc s)) with
  | Some i => match arm_exec i s with Next s' => Some s' | _ => None end
  | None => None
  end.

Fixpoint arm_steps (n : nat) (code : Z -> Z) (s : arm_state) : option arm_state :=
  match n with
  | O => Some s
  | S n' => match arm_step code s with Some s' => arm_steps n' code s' | None => None end
  end.

Definition x86_step (code : Z -> Z) (s : x86_state) : option x86_state :=
  match x86_decode code (xpc s) with
  | Some (i, len) => match x86_exec i len s with Next s' => Some s' | _ => None end
  | None => None
  end.

(** A frame as the game loop issues it: [R_JIT_FrameStart] (its two clock
    readings), [fr_draws] column draws, [R_JIT_FrameEnd]. *)
Record frame := mk_frame {
  fr_start1 : timespec; fr_start2 : timespec; fr_draws : nat; fr_end : timespec
}.

Definition frame_ops (f : frame) : list op :=
  OpFrameStart (fr_start1 f) (fr_start2 f) :: repeat OpDraw (fr_draws f)
  ++ [OpFrameEnd (fr_end f)].

Definition frames_ops (fs : list frame) : list op := flat_map frame_ops fs.

(** The statistics after the frames [fs], all run in [mode]. *)
Fixpoint frames_stats (mode : bool) (fs : list frame) (s : jit_stats_t) : jit_stats_t :=
  match fs with
  | [] => s
  | f :: fs' =>
      frames_stats mode fs'
        (add_frame mode (Nat.iter (fr_draws f) (fun c => wrap64 (c + 1)) 0)
           (ns_between (fr_start1 f) (fr_end f)) s)
  end.

(** Without a buffer (or on an unsupported target) and without a compiled
    entry point, nothing can publish one. *)
Definition ref_only (t : target) (h : harness) : Prop :=
  jit_compiled_fn (h_jit h) = None /\ (t = Unsupported \/ jit_code (h_jit h) = None).

(** A call of [R_JIT_Init] whose [mmap] succeeds. *)
Definition reallocates (o : op) : bool :=
  match o with OpInit (Some _) _ _ => true | _ => false end.

(** A colormap above 4 GiB and a memory holding two distinct texels at
    [source + 0] and [source + 16], mapped to distinct pixels. *)
Definition sample_cmap : Z := 0x7f0000123400.

Definition sample_mem : mem :=
  fun x => if x =? 1000 then 5 else if x =? 1016 then 6
           else if x =? sample_cmap + 5 then 50
           else if x =? sample_cmap + 6 then 60 else 0.

(** The number of times the x86-64 loop body runs for the 32-bit [count]
    in [ecx]: [dec ecx; jns] loops while the decremented value is
    non-negative as a signed 32-bit number. *)
Definition x86_iterations (count : Z) : nat :=
  if count mod 2 ^ 32 <=? 2 ^ 31 then S (Z.to_nat (count mod 2 ^ 32)) else 1%nat.

(** The same for the ARM64 loop: [subs w3, w3, #1; b.ge] loops while the
    old count, read as a signed 32-bit number, is positive. *)
Definition arm_iterations (count : Z) : nat :=
  if count mod 2 ^ 32 <? 2 ^ 31 then S (Z.to_nat (count mod 2 ^ 32)) else 1%nat.

(** * Proofs *)

(** ** Bit-level facts *)

Lemma fld_spec w lo width i :
  0 <= lo -> 0 <= width -> 0 <= i ->
  Z.testbit (fld w lo width) i = (i <? width) && Z.testbit w (lo + i).
Proof.
  intros Hlo Hw Hi. unfold fld.
  rewrite Z.land_spec, Z.shiftr_spec, Z.testbit_ones by lia.
  replace (i + lo) with (lo + i) by lia.
  destruct (Z.leb_spec 0 i); [|lia]. simpl. apply andb_comm.
Qed.

Lemma testbit_small c n k : 0 <= c < 2 ^ n -> n <= k -> Z.testbit c k = false.
Proof.
  intros Hc Hk. destruct (Z.eq_dec c 0) as [->|Hne]; [apply Z.bits_0|].
  apply Z.bits_above_log2; [lia|].
  assert (Z.log2 c < n) by (apply Z.log2_lt_pow2; lia). lia.
Qed.

Lemma testbit_ones_lit n i : 0 <= n -> Z.testbit (Z.ones n) i = (0 <=? i) && (i <? n).
Proof. intros; apply Z.testbit_ones; lia. Qed.

Lemma testbit_255 i : Z.testbit 255 i = (0 <=? i) && (i <? 8).
Proof. change 255 with (Z.ones 8). apply testbit_ones_lit; lia. Qed.

Lemma testbit_ffff i : Z.testbit 0xFFFF i = (0 <=? i) && (i <? 16).
Proof. change 0xFFFF with (Z.ones 16). apply testbit_ones_lit; lia. Qed.

(** Rewrite testbits of bitwise expressions, then split on index ranges. *)
Ltac bits_rw :=
  repeat first
    [ rewrite Z.lor_spec | rewrite Z.land_spec | rewrite Z.lnot_spec by lia
    | rewrite Z.shiftr_spec by lia | rewrite Z.shiftl_spec by lia
    | rewrite Z.testbit_mod_pow2 by lia | rewrite testbit_255 | rewrite testbit_ffff
    | rewrite Z.bits_0 ].

Ltac bits_cases :=
  repeat match goal with
  | |- context [?a <? ?b] => destruct (Z.ltb_spec a b)
  | |- context [?a <=? ?b] => destruct (Z.leb_spec a b)
  end; cbn [andb orb negb]; try lia; try reflexivity.

Lemma byte_at_S x j : byte_at x (S j) = byte_at (Z.shiftr x 8) j.
Proof.
  unfold byte_at. rewrite Z.shiftr_shiftr by lia. f_equal. f_equal. lia.
Qed.

Lemma le_value_bytes n x :
  0 <= x < 2 ^ (8 * Z.of_nat n) -> le_value (le_bytes n x) = x.
Proof.
  revert x. induction n as [|n IH]; intros x Hx.
  - simpl in Hx. simpl. lia.
  - unfold le_bytes. cbn [seq map le_value].
    rewrite <- seq_shift, map_map.
    rewrite (map_ext _ (byte_at (Z.shiftr x 8))) by (intros; apply byte_at_S).
    fold (le_bytes n (Z.shiftr x 8)).
    rewrite IH.
    + unfold byte_at. apply Z.bits_inj'. intros i Hi. bits_rw.
      replace (8 * Z.of_nat 0) with 0 by lia.
      bits_cases.
      * rewrite (Z.testbit_neg_r _ (i - 8)) by lia.
        rewrite Z.add_0_r, andb_true_r, orb_false_r. reflexivity.
      * rewrite Z.shiftr_spec by lia. rewrite andb_false_r, orb_false_l.
        f_equal; lia.
    + rewrite Z.shiftr_div_pow2 by lia. split.
      * apply Z.div_pos; lia.
      * apply Z.div_lt_upper_bound; [lia|].
        replace (2 ^ 8 * 2 ^ (8 * Z.of_nat n)) with (2 ^ (8 * Z.of_nat (S n))); [lia|].
        rewrite <- Z.pow_add_r by lia. f_equal. lia.
Qed.

Lemma le_value_bytes4 x :
  0 <= x < 2 ^ 32 ->
  le_value [byte_at x 0; byte_at x 1; byte_at x 2; byte_at x 3] = x.
Proof. intros H. exact (le_value_bytes 4 x H). Qed.

Lemma le_value_bytes8 x :
  0 <= x < 2 ^ 64 ->
  le_value [byte_at x 0; byte_at x 1; byte_at x 2; byte_at x 3;
            byte_at x 4; byte_at x 5; byte_at x 6; byte_at x 7] = x.
Proof. intros H. exact (le_value_bytes 8 x H). Qed.

Lemma wrap32_bound x : 0 <= wrap32 x < 2 ^ 32.
Proof. unfold wrap32. apply Z.mod_pos_bound. lia. Qed.

Lemma wrap64_bound x : 0 <= wrap64 x < 2 ^ 64.
Proof. unfold wrap64. apply Z.mod_pos_bound. lia. Qed.

Lemma chunk_bound x : 0 <= Z.land x 0xFFFF < 2 ^ 16.
Proof.
  change 0xFFFF with (Z.ones 16). rewrite Z.land_ones by lia.
  apply Z.mod_pos_bound. lia.
Qed.

(** ** Running the interpreters one instruction at a time *)

Section Runs.

Lemma x86_run_next f code s i len s1 k (P : x86_state -> Prop) :
  x86_decode code (xpc s) = Some (i, len) ->
  x86_exec i len s = Next s1 ->
  (exists s', x86_run f code s1 = Some (s', k) /\ P s') ->
  exists s', x86_run (S f) code s = Some (s', S k) /\ P s'.
Proof.
  intros Hd He [s' [Hr HP]]. exists s'. split; [|exact HP].
  cbn [x86_run]. rewrite Hd, He, Hr. reflexivity.
Qed.

Lemma x86_run_halt f code s i len s1 (P : x86_state -> Prop) :
  x86_decode code (xpc s) = Some (i, len) ->
  x86_exec i len s = Halt s1 -> P s1 ->
  exists s', x86_run (S f) code s = Some (s', 1%nat) /\ P s'.
Proof.
  intros Hd He HP. exists s1. split; [|exact HP].
  cbn [x86_run]. rewrite Hd, He. reflexivity.
Qed.

Lemma arm_run_next f code s i s1 k (P : arm_state -> Prop) :
  arm_decode (arm_fetch code (apc s)) = Some i ->
  arm_exec i s = Next s1 ->
  (exists s', arm_run f code s1 = Some (s', k) /\ P s') ->
  exists s', arm_run (S f) code s = Some (s', S k) /\ P s'.
Proof.
  intros Hd He [s' [Hr HP]]. exists s'. split; [|exact HP].
  cbn [arm_run]. rewrite Hd, He, Hr. reflexivity.
Qed.

Lemma arm_run_halt f code s i s1 (P : arm_state -> Prop) :
  arm_decode (arm_fetch code (apc s)) = Some i ->
  arm_exec i s = Halt s1 -> P s1 ->
  exists s', arm_run (S f) code s = Some (s', 1%nat) /\ P s'.
Proof.
  intros Hd He HP. exists s1. split; [|exact HP].
  cbn [arm_run]. rewrite Hd, He. reflexivity.
Qed.

End Runs.

Ltac x86_go Hok :=
  eapply x86_run_next;
  [ apply Hok; reflexivity
  | unfold x86_exec, x86_write, x86_write_flags; cbn -[load8 store8]; reflexivity | ].

Ltac x86_stop Hok :=
  eapply x86_run_halt;
  [ apply Hok; reflexivity
  | unfold x86_exec, x86_write, x86_write_flags; cbn -[load8 store8]; reflexivity | ].

Lemma column_loop_S mask n m d src cm f fs :
  column_loop mask (S n) m d src cm f fs =
  column_loop mask n
    (store8 m d (load8 m (cm + load8 m (src + Z.land (Z.shiftr f 16) mask))))
    (wrap64 (d + 320)) src cm (wrap32 (f + fs)) fs.
Proof. reflexivity. Qed.

Lemma x86_exec_jns_taken rel len s :
  xsf s = false ->
  x86_exec (XJns rel) len s =
  Next (mk_x86 (xregs s) (xsf s) (xzf s) (xpc s + len + rel) (xmem s) (xstack s)).
Proof. intros H. unfold x86_exec. rewrite H. reflexivity. Qed.

Lemma x86_exec_jns_fall rel len s :
  xsf s = true ->
  x86_exec (XJns rel) len s =
  Next (mk_x86 (xregs s) (xsf s) (xzf s) (xpc s + len) (xmem s) (xstack s)).
Proof. intros H. unfold x86_exec. rewrite H. reflexivity. Qed.

Lemma x86_index f :
  0 <= f < 2 ^ 32 ->
  Z.land (Z.shiftr ((f mod 2 ^ 32) mod 2 ^ 32) (Z.land 16 31) mod 2 ^ 32) (127 mod 2 ^ 32)
  = Z.land (Z.shiftr f 16) 127.
Proof.
  intros Hf. rewrite !(Z.mod_small f) by lia. change (Z.land 16 31) with 16.
  change (127 mod 2 ^ 32) with 127. f_equal. apply Z.mod_small.
  rewrite Z.shiftr_div_pow2 by lia. split.
  - apply Z.div_pos; lia.
  - apply Z.div_lt_upper_bound; lia.
Qed.

Lemma wrap64_mod32 x : (x mod 2 ^ 64) mod 2 ^ 32 = x mod 2 ^ 32.
Proof.
  rewrite (Z.mod_eq x (2 ^ 64)) by lia.
  replace (x - 2 ^ 64 * (x / 2 ^ 64)) with (x + - (2 ^ 32 * (x / 2 ^ 64)) * 2 ^ 32)
    by (change (2 ^ 64) with (2 ^ 32 * 2 ^ 32); ring).
  apply Z.mod_add. lia.
Qed.

Lemma load8_wrap m x i : load8 m (wrap64 x + i) = load8 m (x + i).
Proof. unfold load8, wrap64. rewrite Z.add_mod_idemp_l by lia. reflexivity. Qed.

Lemma column_loop_wrap mask n m d src cm f fs :
  column_loop mask n m d (wrap64 src) cm f (wrap64 fs) =
  column_loop mask n m d src cm f fs.
Proof.
  revert m d f. induction n as [|n IH]; intros m d f; [reflexivity|].
  rewrite !column_loop_S, IH, load8_wrap. f_equal. unfold wrap32, wrap64.
  rewrite Z.add_mod, wrap64_mod32, <- Z.add_mod by lia. reflexivity.
Qed.

Lemma assoc_in {A : Type} k l (d : A) : assoc k l = Some d -> In (k, d) l.
Proof.
  induction l as [|[k' d'] l IH]; cbn; [discriminate|].
  destruct (Z.eqb_spec k k') as [->|_]; [intros H; injection H as ->; left; reflexivity|].
  intros H. right. exact (IH H).
Qed.

(** The buffer written by the x86-64 rewriting call decodes to the listing. *)
Lemma x86_gen_code_ok buf base a :
  0 <= a < 2 ^ 64 ->
  x86_code_ok (apply_events buf (gen_events X86_64 base a)) a.
Proof.
  intros Ha pc d H. apply assoc_in in H. cbn [x86_listing In] in H.
  repeat destruct H as [H|H]; try contradiction; injection H as <- <-;
    lazy -[byte_at le_value];
    first [ rewrite le_value_bytes8 by exact Ha; reflexivity | reflexivity ].
Qed.

(** [dec ecx] leaves the sign flag set iff the old 32-bit value is 0 or
    has its top bit set with some lower bit. *)
Lemma dec_sign_set x :
  x = 0 \/ 2 ^ 31 < x < 2 ^ 32 -> Z.testbit ((x - 1) mod 2 ^ 32) 31 = true.
Proof.
  intros [->|Hx]; [reflexivity|].
  rewrite Z.mod_small by lia.
  rewrite Z.testbit_eqb by lia.
  replace ((x - 1) / 2 ^ 31) with 1; [reflexivity|].
  apply Z.div_unique with (x - 1 - 2 ^ 31); lia.
Qed.

Section X86Loop.

Local Arguments Z.shiftr : simpl never.
Local Arguments Z.shiftl : simpl never.
Local Arguments Z.testbit : simpl never.
Local Arguments Z.land : simpl never.
Local Arguments Z.pow : simpl never.
Local Arguments Z.modulo : simpl never.

Lemma x86_loop code a (Hok : x86_code_ok code a) :
  forall n rs sf zf m v13 v12 v3 stk extra,
  rs 12 = a -> rs 13 = 320 -> 0 <= rs 0 < 2 ^ 32 -> 0 <= rs 7 < 2 ^ 64 ->
  (rs 1 mod 2 ^ 32 = Z.of_nat n /\ Z.of_nat n <= 2 ^ 31
   \/ n = 0%nat /\ 2 ^ 31 < rs 1 mod 2 ^ 32) ->
  exists s',
    x86_run (10 * S n + 4 + extra) code
      (mk_x86 rs sf zf 24 m (v13 :: v12 :: v3 :: stk)) = Some (s', (10 * S n + 4)%nat)
    /\ xmem s' = column_loop 127 (S n) m (rs 7) (rs 6) a (rs 0) (rs 8)
    /\ xstack s' = stk
    /\ xregs s' 3 = v3 /\ xregs s' 12 = v12 /\ xregs s' 13 = v13.
Proof.
  induction n as [|n IH]; intros rs sf zf m v13 v12 v3 stk extra H12 H13 H0 H7 H1.
  - replace (10 * 1 + 4 + extra)%nat with
      (S (S (S (S (S (S (S (S (S (S (S (S (S (S extra))))))))))))))%nat by lia.
    replace (10 * 1 + 4)%nat with
      (S (S (S (S (S (S (S (S (S (S (S (S (S 1)))))))))))))%nat by lia.
    do 9 x86_go Hok.
    eapply x86_run_next;
      [ apply Hok; reflexivity
      | apply x86_exec_jns_fall; cbn; apply dec_sign_set;
        pose proof (Z.mod_pos_bound (rs 1) (2 ^ 32) ltac:(lia)); lia | ].
    do 3 x86_go Hok.
    x86_stop Hok.
    cbn -[load8 store8]. split; [|split; [reflexivity|]].
    + rewrite H12, x86_index by exact H0. rewrite !Z.mul_1_r. reflexivity.
    + repeat split; reflexivity.
  - replace (10 * S (S n) + 4 + extra)%nat with
      (S (S (S (S (S (S (S (S (S (S (10 * S n + 4 + extra)))))))))))%nat by lia.
    replace (10 * S (S n) + 4)%nat with
      (S (S (S (S (S (S (S (S (S (S (10 * S n + 4)))))))))))%nat by lia.
    assert (Hn : rs 1 mod 2 ^ 32 = Z.of_nat (S n) /\ Z.of_nat (S n) <= 2 ^ 31) by lia.
    clear H1. destruct Hn as [H1 Hn].
    do 9 x86_go Hok.
    assert (Hc : (rs 1 mod 2 ^ 32 - 1) mod 2 ^ 32 = Z.of_nat n).
    { rewrite H1, Nat2Z.inj_succ. rewrite Z.mod_small; lia. }
    eapply x86_run_next;
      [ apply Hok; reflexivity
      | apply x86_exec_jns_taken; cbn; rewrite Hc; apply testbit_small with 31; lia | ].
    match goal with |- exists s', x86_run _ _ ?st = _ /\ _ =>
      destruct (IH (xregs st) (xsf st) (xzf st) (xmem st) v13 v12 v3 stk extra)
        as [s' [Hr [Hm Hs]]] end.
    { cbn. exact H12. }
    { cbn. exact H13. }
    { cbn. apply Z.mod_pos_bound. lia. }
    { cbn. apply Z.mod_pos_bound. lia. }
    { left. cbn. rewrite Z.mod_mod by lia. rewrite Hc. lia. }
    exists s'. split; [exact Hr|]. split; [|exact Hs].
    rewrite Hm, (column_loop_S 127 (S n) m). cbn -[load8 store8 column_loop].
    rewrite H12, H13, x86_index by exact H0. rewrite !Z.mul_1_r.
    unfold wrap64, wrap32.
    rewrite (Z.mod_small (rs 7)), (Z.mod_small 320) by lia.
    rewrite <- (Z.add_mod (rs 0) (rs 8)) by lia.
    reflexivity.
Qed.

Lemma x86_draw_any code a rs m stk dest source cmap count fracstep frac extra :
  x86_code_ok code a -> 0 <= a < 2 ^ 64 ->
  exists s',
    x86_run (6 + (10 * x86_iterations count + 4) + extra) code
      (x86_call_state rs m stk dest source cmap count fracstep frac)
    = Some (s', (6 + (10 * x86_iterations count + 4))%nat)
    /\ xmem s' = column_loop 127 (x86_iterations count) m (wrap64 dest) source a
                   (wrap32 frac) fracstep
    /\ xstack s' = stk
    /\ xregs s' 3 = rs 3 /\ xregs s' 12 = rs 12 /\ xregs s' 13 = rs 13.
Proof.
  intros Hok Ha.
  assert (Hu : 0 <= count mod 2 ^ 32 < 2 ^ 32) by (apply Z.mod_pos_bound; lia).
  assert (Hit : exists n, x86_iterations count = S n /\
            (count mod 2 ^ 32 = Z.of_nat n /\ Z.of_nat n <= 2 ^ 31
             \/ n = 0%nat /\ 2 ^ 31 < count mod 2 ^ 32)).
  { unfold x86_iterations. destruct (Z.leb_spec (count mod 2 ^ 32) (2 ^ 31)).
    - exists (Z.to_nat (count mod 2 ^ 32)). split; [reflexivity|]. left. lia.
    - exists 0%nat. split; [reflexivity|]. right. lia. }
  destruct Hit as [n [-> Hn]].
  replace (6 + (10 * S n + 4) + extra)%nat with
    (S (S (S (S (S (S (10 * S n + 4 + extra)))))))%nat by lia.
  replace (6 + (10 * S n + 4))%nat with
    (S (S (S (S (S (S (10 * S n + 4)))))))%nat by lia.
  unfold x86_call_state.
  do 6 x86_go Hok.
  match goal with |- exists s', x86_run _ _ ?st = _ /\ _ =>
    destruct (x86_loop code a Hok n (xregs st) (xsf st) (xzf st)
                (xmem st) (rs 13) (rs 12) (rs 3) stk extra)
      as [s' [Hr [Hm Hs]]] end.
  { cbn. apply Z.mod_small. exact Ha. }
  { reflexivity. }
  { cbn. apply Z.mod_pos_bound. lia. }
  { cbn. apply Z.mod_pos_bound. lia. }
  { cbn. unfold wrap64. rewrite wrap64_mod32, ?Z.mod_mod by lia. exact Hn. }
  exists s'. split; [exact Hr|]. split; [|exact Hs].
  rewrite Hm. cbn -[column_loop].
  rewrite column_loop_wrap. unfold wrap64 at 2, wrap32.
  rewrite wrap64_mod32. reflexivity.
Qed.

Lemma x86_draw_column code a rs m stk dest source cmap count fracstep frac extra :
  x86_code_ok code a -> 0 <= a < 2 ^ 64 -> 0 <= count < 2 ^ 31 ->
  exists s',
    x86_run (6 + (10 * S (Z.to_nat count) + 4) + extra) code
      (x86_call_state rs m stk dest source cmap count fracstep frac)
    = Some (s', (6 + (10 * S (Z.to_nat count) + 4))%nat)
    /\ xmem s' = ref_draw_column m dest source a count fracstep frac
    /\ xstack s' = stk.
Proof.
  intros Hok Ha Hc.
  assert (Hi : x86_iterations count = S (Z.to_nat count)).
  { unfold x86_iterations. rewrite Z.mod_small by lia.
    destruct (Z.leb_spec count (2 ^ 31)); [reflexivity|lia]. }
  destruct (x86_draw_any code a rs m stk dest source cmap count fracstep frac extra Hok Ha)
    as [s' [Hr [Hm [Hs _]]]].
  rewrite Hi in Hr, Hm. exists s'. split; [exact Hr|]. split; [|exact Hs].
  rewrite Hm. unfold ref_draw_column. rewrite Nat.add_1_r. reflexivity.
Qed.
End X86Loop.




(** ** The ARM64 buffer decodes to [arm_prog] *)

(** A move-wide word: the 16-bit immediate [c] in bits 5..20 of [K]. *)
Lemma fld_movw_out K c lo width :
  0 <= c < 2 ^ 16 -> 0 <= lo -> 0 <= width -> (21 <= lo \/ lo + width <= 5) ->
  fld (Z.lor K (Z.shiftl c 5)) lo width = fld K lo width.
Proof.
  intros Hc Hlo Hw Hr. apply Z.bits_inj'. intros i Hi.
  rewrite !fld_spec by lia. rewrite Z.lor_spec.
  destruct (Z.ltb_spec i width); cbn [andb]; [|reflexivity].
  destruct Hr as [Hr|Hr].
  - rewrite Z.shiftl_spec by lia. rewrite (testbit_small c 16) by lia.
    apply Bool.orb_false_r.
  - rewrite Z.shiftl_spec_low by lia. apply Bool.orb_false_r.
Qed.

Lemma fld_movw_imm K c :
  0 <= c < 2 ^ 16 -> fld K 5 16 = 0 -> fld (Z.lor K (Z.shiftl c 5)) 5 16 = c.
Proof.
  intros Hc HK. apply Z.bits_inj'. intros i Hi.
  rewrite fld_spec by lia. rewrite Z.lor_spec, Z.shiftl_spec by lia.
  replace (5 + i - 5) with i by lia.
  assert (Hk : Z.testbit (fld K 5 16) i = false) by (rewrite HK; apply Z.bits_0).
  rewrite fld_spec in Hk by lia.
  destruct (Z.ltb_spec i 16); cbn [andb] in *.
  - rewrite Hk. reflexivity.
  - symmetry. apply (testbit_small c 16); lia.
Qed.

Lemma testbit_movw_hi K c j :
  0 <= c < 2 ^ 16 -> 21 <= j ->
  Z.testbit (Z.lor K (Z.shiftl c 5)) j = Z.testbit K j.
Proof.
  intros Hc Hj. rewrite Z.lor_spec, Z.shiftl_spec by lia.
  rewrite (testbit_small c 16) by lia. apply Bool.orb_false_r.
Qed.

Lemma wrap32_movw K c :
  0 <= c < 2 ^ 16 -> 0 <= K < 2 ^ 32 ->
  wrap32 (Z.lor K (Z.shiftl c 5)) = Z.lor K (Z.shiftl c 5).
Proof.
  intros Hc HK. unfold wrap32. apply Z.bits_inj'. intros i Hi.
  rewrite Z.testbit_mod_pow2 by lia.
  destruct (Z.ltb_spec i 32); [reflexivity|]. symmetry.
  rewrite testbit_movw_hi by lia. apply (testbit_small K 32); lia.
Qed.

Ltac movw_decode :=
  rewrite wrap32_movw by (assumption || lia);
  match goal with
  | |- arm_decode (Z.lor ?K (Z.shiftl ?c 5)) = _ =>
      let Hc := fresh "Hc" in
      assert (Hc : 0 <= c < 2 ^ 16) by (first [assumption | apply chunk_bound]);
      unfold arm_decode;
      rewrite (fld_movw_out K c 0 5), (fld_movw_out K c 22 10),
        (fld_movw_out K c 23 6), (fld_movw_out K c 29 2), (fld_movw_out K c 21 2),
        (testbit_movw_hi K c 31), (fld_movw_imm K c)
        by first [exact Hc | lia | reflexivity]
  end;
  lazy; reflexivity.

Lemma arm_decode_movz19 c :
  0 <= c < 2 ^ 16 ->
  arm_decode (wrap32 (Z.lor 0xd2800013 (Z.shiftl c 5))) = Some (AMovz true 19 c 0).
Proof. intros Hc0. movw_decode. Qed.

Lemma arm_decode_movk19_1 c :
  0 <= c < 2 ^ 16 ->
  arm_decode (wrap32 (Z.lor 0xf2a00013 (Z.shiftl c 5))) = Some (AMovk true 19 c 1).
Proof. intros Hc0. movw_decode. Qed.

Lemma arm_decode_movk19_2 c :
  0 <= c < 2 ^ 16 ->
  arm_decode (wrap32 (Z.lor 0xf2c00013 (Z.shiftl c 5))) = Some (AMovk true 19 c 2).
Proof. intros Hc0. movw_decode. Qed.

Lemma arm_decode_movk19_3 c :
  0 <= c < 2 ^ 16 ->
  arm_decode (wrap32 (Z.lor 0xf2e00013 (Z.shiftl c 5))) = Some (AMovk true 19 c 3).
Proof. intros Hc0. movw_decode. Qed.

Lemma arm_decode_words a k :
  (k < 21)%nat ->
  arm_decode (wrap32 (nth k (arm_words a) 0)) = Some (nth k (arm_prog a) (ARet 30)).
Proof.
  intros Hk.
  do 2 (destruct k as [|k]; [reflexivity|]).
  destruct k as [|k]; [apply arm_decode_movz19, chunk_bound|].
  destruct k as [|k]; [apply arm_decode_movk19_1, chunk_bound|].
  destruct k as [|k]; [apply arm_decode_movk19_2, chunk_bound|].
  destruct k as [|k]; [apply arm_decode_movk19_3, chunk_bound|].
  do 15 (destruct k as [|k]; [reflexivity|]).
  lia.
Qed.

Lemma arm_gen_fetch buf base a k :
  (k < 21)%nat ->
  arm_fetch (apply_events buf (gen_events Arm64Other base a)) (4 * Z.of_nat k)
  = wrap32 (nth k (arm_words a) 0).
Proof.
  intros Hk.
  do 21 (destruct k as [|k];
    [ lazy -[byte_at le_value wrap32 Z.lor Z.shiftl Z.land Z.shiftr];
      apply le_value_bytes4, wrap32_bound |]).
  lia.
Qed.

Lemma apply_events_apple buf base a :
  apply_events buf (gen_events Arm64Apple base a)
  = apply_events buf (gen_events Arm64Other base a).
Proof. unfold apply_events, gen_events. rewrite !fold_left_app. reflexivity. Qed.

(** The buffer written by the ARM64 rewriting call decodes to [arm_prog]. *)
Lemma arm_gen_code_ok buf base a :
  arm_code_ok (apply_events buf (gen_events Arm64Other base a)) a.
Proof.
  intros pc i H. unfold arm_at in H.
  destruct ((0 <=? pc) && (pc mod 4 =? 0)) eqn:E; [|discriminate].
  apply andb_true_iff in E as [E1 E2]. apply Z.leb_le in E1. apply Z.eqb_eq in E2.
  assert (Hk : (Z.to_nat (pc / 4) < 21)%nat).
  { change 21%nat with (List.length (arm_prog a)). apply nth_error_Some.
    rewrite H. discriminate. }
  assert (Hpc : pc = 4 * Z.of_nat (Z.to_nat (pc / 4))).
  { rewrite Z2Nat.id by (apply Z.div_pos; lia).
    pose proof (Z.div_mod pc 4). lia. }
  rewrite Hpc, arm_gen_fetch, arm_decode_words by exact Hk.
  f_equal. apply nth_error_nth. exact H.
Qed.

Ltac arm_go Hok :=
  eapply arm_run_next;
  [ apply Hok; reflexivity
  | unfold arm_exec, arm_set; cbn -[load8 store8]; reflexivity | ].

Ltac arm_stop Hok :=
  eapply arm_run_halt;
  [ apply Hok; reflexivity
  | unfold arm_exec, arm_set; cbn -[load8 store8]; reflexivity | ].

Lemma arm_exec_bcond cond off s :
  arm_exec (ABcond cond off) s =
  Next (mk_arm (aregs s) (an s) (az s) (ac s) (av s)
          (if cond_holds cond (an s) (az s) (ac s) (av s) then apc s + off else apc s + 4)
          (amem s) (astack s)).
Proof. reflexivity. Qed.

Lemma arm_index f :
  0 <= f < 2 ^ 32 ->
  Z.land (Z.land (Z.shiftr (f mod 2 ^ 32) 16) (Z.ones 4) mod 2 ^ 32 mod 2 ^ 32) 127
  = Z.land (Z.shiftr f 16) 15.
Proof.
  intros Hf. rewrite (Z.mod_small f) by lia.
  rewrite Z.land_ones by lia.
  assert (0 <= Z.shiftr f 16 mod 2 ^ 4 < 2 ^ 4) by (apply Z.mod_pos_bound; lia).
  rewrite !(Z.mod_small (Z.shiftr f 16 mod 2 ^ 4)) by lia.
  rewrite <- Z.land_ones by lia. rewrite <- Z.land_assoc. reflexivity.
Qed.

(** [subs w3, w3, #1] then [b.ge]: taken iff the old count is positive. *)
Lemma ge_after_subs x :
  0 <= x < 2 ^ 31 ->
  cond_holds 10 (Z.testbit ((x - 1) mod 2 ^ 32) 31) ((x - 1) mod 2 ^ 32 =? 0) (1 <=? x)
    (negb (in_range (- 2 ^ 31) (sext 32 x - 1) (2 ^ 31 - 1))) = (1 <=? x).
Proof.
  intros Hx. destruct (Z.eq_dec x 0) as [->|Hne]; [reflexivity|].
  assert (Hs : sext 32 x = x).
  { unfold sext. replace (32 - 1) with 31 by lia.
    destruct (Z.ltb_spec x (2 ^ 31)); lia. }
  rewrite Hs, Z.mod_small by lia. rewrite (testbit_small (x - 1) 31) by lia.
  unfold in_range.
  destruct (Z.leb_spec (- 2 ^ 31) (x - 1)); [|lia].
  destruct (Z.leb_spec (x - 1) (2 ^ 31 - 1)); [|lia].
  destruct (Z.leb_spec 1 x); [|lia]. reflexivity.
Qed.

(** [subs w3, w3, #1] then [b.ge] falls through when the old count is 0 or
    negative as a signed 32-bit number. *)
Lemma arm_exit x :
  x = 0 \/ 2 ^ 31 <= x < 2 ^ 32 ->
  cond_holds 10 (Z.testbit ((x - 1) mod 2 ^ 32) 31) ((x - 1) mod 2 ^ 32 =? 0) (1 <=? x)
    (negb (in_range (- 2 ^ 31) (sext 32 x - 1) (2 ^ 31 - 1))) = false.
Proof.
  intros [->|Hx]; [reflexivity|].
  destruct (Z.eq_dec x (2 ^ 31)) as [->|Hne]; [reflexivity|].
  rewrite dec_sign_set by lia.
  assert (Hs : sext 32 x = x - 2 ^ 32).
  { unfold sext. replace (32 - 1) with 31 by lia.
    destruct (Z.ltb_spec x (2 ^ 31)); lia. }
  rewrite Hs. unfold in_range.
  destruct (Z.leb_spec (- 2 ^ 31) (x - 2 ^ 32 - 1)); [|lia].
  destruct (Z.leb_spec (x - 2 ^ 32 - 1) (2 ^ 31 - 1)); [|lia].
  reflexivity.
Qed.

(** One [add w22, w22, w4]. *)
Lemma add32_step p q : (p mod 2 ^ 32 + Z.shiftl q 0 mod 2 ^ 32) mod 2 ^ 32 = (p + q) mod 2 ^ 32.
Proof. rewrite Z.shiftl_0_r, <- Z.add_mod by lia. reflexivity. Qed.

Section ArmLoop.

Local Arguments Z.shiftr : simpl never.
Local Arguments Z.shiftl : simpl never.
Local Arguments Z.testbit : simpl never.
Local Arguments Z.land : simpl never.
Local Arguments Z.pow : simpl never.
Local Arguments Z.modulo : simpl never.
Local Arguments Z.ones : simpl never.

Lemma arm_loop code a (Hok : arm_code_ok code a) :
  forall n rs fn fz fc fv m v1 v2 v3 v4 stk extra,
  rs 19 = a -> rs 20 = 320 -> 0 <= rs 22 < 2 ^ 32 -> 0 <= rs 21 < 2 ^ 64 ->
  (rs 3 mod 2 ^ 32 = Z.of_nat n /\ Z.of_nat n < 2 ^ 31
   \/ n = 0%nat /\ 2 ^ 31 <= rs 3 mod 2 ^ 32) ->
  exists s',
    arm_run (9 * S n + 3 + extra) code
      (mk_arm rs fn fz fc fv 36 m (v1 :: v2 :: v3 :: v4 :: stk))
    = Some (s', (9 * S n + 3)%nat)
    /\ amem s' = column_loop 15 (S n) m (rs 21) (rs 1) a (rs 22) (rs 4)
    /\ astack s' = stk
    /\ aregs s' 19 = v4 /\ aregs s' 21 = v2 /\ aregs s' 20 = 320
    /\ aregs s' 22 = (rs 22 + Z.of_nat (S n) * rs 4) mod 2 ^ 32.
Proof.
  induction n as [|n IH];
    intros rs fn fz fc fv m v1 v2 v3 v4 stk extra H19 H20 H22 H21 H3.
  - replace (9 * 1 + 3 + extra)%nat with
      (S (S (S (S (S (S (S (S (S (S (S (S (extra)))))))))))))%nat by lia.
    replace (9 * 1 + 3)%nat with
      (S (S (S (S (S (S (S (S (S (S (S (1))))))))))))%nat by lia.
    do 8 arm_go Hok.
    eapply arm_run_next;
      [ apply Hok; reflexivity
      | rewrite arm_exec_bcond; cbn [an az ac av apc];
        rewrite (arm_exit (rs 3 mod 2 ^ 32))
          by (pose proof (Z.mod_pos_bound (rs 3) (2 ^ 32) ltac:(lia)); lia);
        reflexivity | ].
    do 2 arm_go Hok.
    arm_stop Hok.
    cbn -[load8 store8]. split; [|split; [reflexivity|]].
    + rewrite H19, Z.add_0_r, arm_index by exact H22. reflexivity.
    + split; [reflexivity|]. split; [reflexivity|]. split; [exact H20|].
      rewrite add32_step. f_equal. f_equal. destruct (rs 4); reflexivity.
  - replace (9 * S (S n) + 3 + extra)%nat with
      (S (S (S (S (S (S (S (S (S (9 * S n + 3 + extra))))))))))%nat by lia.
    replace (9 * S (S n) + 3)%nat with
      (S (S (S (S (S (S (S (S (S (9 * S n + 3))))))))))%nat by lia.
    assert (Hn : rs 3 mod 2 ^ 32 = Z.of_nat (S n) /\ Z.of_nat (S n) < 2 ^ 31) by lia.
    clear H3. destruct Hn as [H3 Hn].
    do 8 arm_go Hok.
    eapply arm_run_next;
      [ apply Hok; reflexivity
      | rewrite arm_exec_bcond; cbn [an az ac av apc];
        rewrite (ge_after_subs (rs 3 mod 2 ^ 32)) by (rewrite H3; lia);
        replace (1 <=? rs 3 mod 2 ^ 32) with true
          by (rewrite H3; symmetry; apply Z.leb_le; lia);
        reflexivity | ].
    match goal with |- exists s', arm_run _ _ ?st = _ /\ _ =>
      destruct (IH (aregs st) (an st) (az st) (ac st) (av st) (amem st) v1 v2 v3 v4 stk extra)
        as [s' [Hr [Hm [Hs [R19 [R21 [R20 R22]]]]]]] end.
    { cbn. exact H19. }
    { cbn. exact H20. }
    { cbn. apply Z.mod_pos_bound. lia. }
    { cbn. apply Z.mod_pos_bound. lia. }
    { left. cbn. rewrite Z.mod_mod, H3, Nat2Z.inj_succ by lia. rewrite Z.mod_small; lia. }
    exists s'. split; [exact Hr|]. split.
    + rewrite Hm, (column_loop_S 15 (S n) m). cbn -[load8 store8 column_loop].
      rewrite H19, H20, Z.add_0_r, arm_index by exact H22. rewrite !Z.shiftl_0_r.
      unfold wrap64, wrap32.
      rewrite (Z.mod_small (rs 21)), (Z.mod_small 320) by lia.
      rewrite <- (Z.add_mod (rs 22) (rs 4)) by lia.
      reflexivity.
    + split; [exact Hs|]. split; [exact R19|]. split; [exact R21|]. split; [exact R20|].
      rewrite R22. remember (Z.of_nat (S n)) as k1 eqn:Hk1.
      remember (Z.of_nat (S (S n))) as k2 eqn:Hk2.
      cbn. rewrite add32_step, Z.add_mod_idemp_l by lia.
      f_equal. lia.
Qed.

End ArmLoop.

Section ArmCall.

Local Arguments Z.shiftr : simpl never.
Local Arguments Z.shiftl : simpl never.
Local Arguments Z.testbit : simpl never.
Local Arguments Z.land : simpl never.
Local Arguments Z.lor : simpl never.
Local Arguments Z.lnot : simpl never.
Local Arguments Z.pow : simpl never.
Local Arguments Z.modulo : simpl never.
Local Arguments Z.ones : simpl never.

(** [movz x19, #c0; movk x19, #c1, lsl #16; ...lsl #32; ...lsl #48]
    rebuilds [a] from its four 16-bit chunks. *)
Lemma movk_chain a :
  0 <= a < 2 ^ 64 ->
  Z.lor
    (Z.land
       ((Z.lor
           (Z.land
              ((Z.lor
                  (Z.land (Z.shiftl (Z.land a 65535) 0 mod 2 ^ 64)
                     (Z.lnot (Z.shiftl 65535 16)))
                  (Z.shiftl (Z.land (Z.shiftr a 16) 65535) 16) mod 2 ^ 64) mod 2 ^ 64)
              (Z.lnot (Z.shiftl 65535 32)))
           (Z.shiftl (Z.land (Z.shiftr a 32) 65535) 32) mod 2 ^ 64) mod 2 ^ 64)
       (Z.lnot (Z.shiftl 65535 48)))
    (Z.shiftl (Z.land (Z.shiftr a 48) 65535) 48) mod 2 ^ 64 = a.
Proof.
  intros Ha. apply Z.bits_inj'. intros i Hi.
  bits_rw. bits_cases;
    rewrite ?Bool.andb_true_r, ?Bool.andb_false_r, ?Bool.orb_false_r, ?Bool.orb_false_l;
    rewrite ?Z.shiftr_spec by lia;
    first [ f_equal; lia | symmetry; apply (testbit_small a 64); lia ].
Qed.

Lemma arm_draw_any code a rs m stk dest source cmap count fracstep frac extra :
  arm_code_ok code a -> 0 <= a < 2 ^ 64 ->
  exists s',
    arm_run (9 + (9 * arm_iterations count + 3) + extra) code
      (arm_call_state rs m stk dest source cmap count fracstep frac)
    = Some (s', (9 + (9 * arm_iterations count + 3))%nat)
    /\ amem s' = column_loop 15 (arm_iterations count) m (wrap64 dest) source a
                   (wrap32 frac) fracstep
    /\ astack s' = stk
    /\ aregs s' 19 = rs 19 /\ aregs s' 21 = rs 21 /\ aregs s' 20 = 320
    /\ aregs s' 22 = wrap32 (frac + Z.of_nat (arm_iterations count) * fracstep).
Proof.
  intros Hok Ha.
  assert (Hu : 0 <= count mod 2 ^ 32 < 2 ^ 32) by (apply Z.mod_pos_bound; lia).
  assert (Hit : exists n, arm_iterations count = S n /\
            (count mod 2 ^ 32 = Z.of_nat n /\ Z.of_nat n < 2 ^ 31
             \/ n = 0%nat /\ 2 ^ 31 <= count mod 2 ^ 32)).
  { unfold arm_iterations. destruct (Z.ltb_spec (count mod 2 ^ 32) (2 ^ 31)).
    - exists (Z.to_nat (count mod 2 ^ 32)). split; [reflexivity|]. left. lia.
    - exists 0%nat. split; [reflexivity|]. right. lia. }
  destruct Hit as [n [-> Hn]].
  replace (9 + (9 * S n + 3) + extra)%nat with
    (S (S (S (S (S (S (S (S (S (9 * S n + 3 + extra))))))))))%nat by lia.
  replace (9 + (9 * S n + 3))%nat with
    (S (S (S (S (S (S (S (S (S (9 * S n + 3))))))))))%nat by lia.
  remember (Z.of_nat (S n)) as k eqn:Hk.
  unfold arm_call_state.
  do 9 arm_go Hok.
  match goal with |- exists s', arm_run _ _ ?st = _ /\ _ =>
    destruct (arm_loop code a Hok n (aregs st) (an st) (az st) (ac st)
                (av st) (amem st) (rs 21) (rs 21) (rs 19) (rs 19) stk extra)
      as [s' [Hr [Hm [Hs [R19 [R21 [R20 R22]]]]]]] end.
  { exact (movk_chain a Ha). }
  { reflexivity. }
  { cbn. apply Z.mod_pos_bound. lia. }
  { cbn. apply Z.mod_pos_bound. lia. }
  { cbn. unfold wrap64. rewrite wrap64_mod32, ?Z.mod_mod by lia. exact Hn. }
  exists s'. split; [exact Hr|]. split; [|split; [exact Hs|]].
  - rewrite Hm. cbn -[column_loop]. rewrite column_loop_wrap.
    rewrite !Z.mod_0_l, !Z.lor_0_l, !Z.shiftl_0_r by lia.
    unfold wrap32. unfold wrap64 at 2.
    unfold wrap64. rewrite wrap64_mod32, !Z.mod_mod by lia. reflexivity.
  - split; [exact R19|]. split; [exact R21|]. split; [exact R20|].
    rewrite R22, <- Hk. cbn.
    rewrite !Z.mod_0_l, !Z.lor_0_l, !Z.shiftl_0_r by lia.
    unfold wrap32, wrap64.
    rewrite !Z.mod_mod, wrap64_mod32 by lia.
    rewrite Z.add_mod_idemp_l by lia.
    rewrite <- Z.add_mod_idemp_r, <- Z.mul_mod_idemp_r, wrap64_mod32 by lia.
    rewrite Z.mul_mod_idemp_r, Z.add_mod_idemp_r by lia. reflexivity.
Qed.

Lemma arm_draw_column code a rs m stk dest source cmap count fracstep frac extra :
  arm_code_ok code a -> 0 <= a < 2 ^ 64 -> 0 <= count < 2 ^ 31 ->
  exists s',
    arm_run (9 + (9 * S (Z.to_nat count) + 3) + extra) code
      (arm_call_state rs m stk dest source cmap count fracstep frac)
    = Some (s', (9 + (9 * S (Z.to_nat count) + 3))%nat)
    /\ amem s' = column_loop 15 (Z.to_nat count + 1) m (wrap64 dest) source a
                   (wrap32 frac) fracstep
    /\ astack s' = stk.
Proof.
  intros Hok Ha Hc.
  assert (Hi : arm_iterations count = S (Z.to_nat count)).
  { unfold arm_iterations. rewrite Z.mod_small by lia.
    destruct (Z.ltb_spec count (2 ^ 31)); [reflexivity|lia]. }
  destruct (arm_draw_any code a rs m stk dest source cmap count fracstep frac extra Hok Ha)
    as [s' [Hr [Hm [Hs _]]]].
  rewrite Hi in Hr, Hm. exists s'. split; [exact Hr|]. split; [|exact Hs].
  rewrite Hm, Nat.add_1_r. reflexivity.
Qed.
End ArmCall.

(** ** Runs under every resolution of the unpredictable [ldp] *)

Lemma arm_exec_cu_plain pick i s : ldp_same i = false -> arm_exec_cu pick i s = arm_exec i s.
Proof. intros H. destruct i; try reflexivity. cbn in H. cbn [arm_exec_cu]. rewrite H. reflexivity. Qed.

Lemma arm_steps_plain_next n code s i s1 :
  arm_decode (arm_fetch code (apc s)) = Some i -> ldp_same i = false ->
  arm_exec i s = Next s1 ->
  arm_steps_plain (S n) code s = arm_steps_plain n code s1.
Proof. intros Hd Hl He. cbn [arm_steps_plain]. unfold arm_step_plain. rewrite Hd, Hl, He. reflexivity. Qed.

Lemma run_shift_0 o : run_shift 0 o = o.
Proof. destruct o as [[s n]|]; reflexivity. Qed.

Lemma arm_steps_plain_run_cu pick n code s s' f :
  arm_steps_plain n code s = Some s' ->
  arm_run_cu pick (n + f) code s = run_shift n (arm_run_cu pick f code s').
Proof.
  revert s. induction n as [|n IH]; intros s H.
  - cbn in H. injection H as <-. rewrite run_shift_0. reflexivity.
  - cbn [arm_steps_plain] in H. unfold arm_step_plain in H.
    destruct (arm_decode (arm_fetch code (apc s))) as [i|] eqn:Hd; [|discriminate].
    destruct (ldp_same i) eqn:Hl; [discriminate|].
    destruct (arm_exec i s) as [s1|s1|] eqn:He; try discriminate.
    cbn [Nat.add arm_run_cu]. rewrite Hd, arm_exec_cu_plain, He, (IH s1 H) by exact Hl.
    destruct (arm_run_cu pick f code s') as [[s2 k]|]; reflexivity.
Qed.

Lemma arm_steps_plain_add a b code s :
  arm_steps_plain (a + b) code s
  = match arm_steps_plain a code s with Some s' => arm_steps_plain b code s' | None => None end.
Proof.
  revert s. induction a as [|a IH]; intros s; [reflexivity|].
  cbn [Nat.add arm_steps_plain]. destruct (arm_step_plain code s); [apply IH|reflexivity].
Qed.

Lemma arm_epilogue_cu code a pick s extra v1 v2 v3 v4 stk :
  arm_code_ok code a -> apc s = 72 -> astack s = v1 :: v2 :: v3 :: v4 :: stk ->
  (forall r, arm_run_cu pick (3 + extra) code s = Some r ->
     snd r = 3%nat /\ amem (fst r) = amem s
     /\ aregs (fst r) 20 = aregs s 20 /\ aregs (fst r) 22 = aregs s 22)
  /\ ((forall s1, pick s1 <> LdpUndefined) -> exists r, arm_run_cu pick (3 + extra) code s = Some r)
  /\ (exists s', arm_run_cu (fun _ => LdpNop) (3 + extra) code s = Some (s', 3%nat)
                 /\ aregs s' = aregs s /\ astack s' = astack s).
Proof.
  intros Hok Hpc Hst.
  assert (D72 : arm_decode (arm_fetch code 72) = Some (ALdpPost 21 21 16)) by (apply Hok; reflexivity).
  assert (D76 : arm_decode (arm_fetch code 76) = Some (ALdpPost 19 19 16)) by (apply Hok; reflexivity).
  assert (D80 : arm_decode (arm_fetch code 80) = Some (ARet 30)) by (apply Hok; reflexivity).
  destruct s as [rs fn fz fc fv pc m st]; cbn in Hpc, Hst; subst pc st.
  split; [|split].
  - intros r Hr. unfold arm_exec_cu in Hr. cbn -[arm_fetch arm_decode] in Hr. rewrite D72 in Hr.
    cbn -[arm_fetch arm_decode] in Hr.
    match type of Hr with context [pick ?x] => destruct (pick x) as [| |v] end;
      [discriminate | |]; cbn -[arm_fetch arm_decode] in Hr; rewrite D76 in Hr;
      cbn -[arm_fetch arm_decode] in Hr;
      (match type of Hr with context [pick ?x] => destruct (pick x) as [| |w] end;
       [discriminate | |]); cbn -[arm_fetch arm_decode] in Hr; rewrite D80 in Hr;
      cbn in Hr; injection Hr as <-; cbn; repeat split.
  - intros Hnu. unfold arm_exec_cu. cbn -[arm_fetch arm_decode]. rewrite D72.
    cbn -[arm_fetch arm_decode].
    match goal with |- context [pick ?x] => destruct (pick x) as [| |v] eqn:P end;
      [exfalso; exact (Hnu _ P) | |]; cbn -[arm_fetch arm_decode]; rewrite D76;
      cbn -[arm_fetch arm_decode];
      (match goal with |- context [pick ?x] => destruct (pick x) as [| |w] eqn:Q end;
       [exfalso; exact (Hnu _ Q) | |]); cbn -[arm_fetch arm_decode]; rewrite D80;
      cbn; eexists; reflexivity.
  - unfold arm_exec_cu. cbn -[arm_fetch arm_decode]. rewrite D72.
    cbn -[arm_fetch arm_decode]. rewrite D76. cbn -[arm_fetch arm_decode]. rewrite D80.
    cbn. eexists. split; [reflexivity|]. split; reflexivity.
Qed.

Ltac arm_plain Hok :=
  erewrite arm_steps_plain_next;
  [ | apply Hok; reflexivity | reflexivity
  | unfold arm_exec, arm_set; cbn -[load8 store8]; reflexivity ].

Section ArmPlain.

Local Arguments Z.shiftr : simpl never.
Local Arguments Z.shiftl : simpl never.
Local Arguments Z.testbit : simpl never.
Local Arguments Z.land : simpl never.
Local Arguments Z.lor : simpl never.
Local Arguments Z.lnot : simpl never.
Local Arguments Z.pow : simpl never.
Local Arguments Z.modulo : simpl never.
Local Arguments Z.ones : simpl never.

Lemma arm_loop_plain code a (Hok : arm_code_ok code a) :
  forall n rs fn fz fc fv m stk,
  rs 19 = a -> rs 20 = 320 -> 0 <= rs 22 < 2 ^ 32 -> 0 <= rs 21 < 2 ^ 64 ->
  (rs 3 mod 2 ^ 32 = Z.of_nat n /\ Z.of_nat n < 2 ^ 31
   \/ n = 0%nat /\ 2 ^ 31 <= rs 3 mod 2 ^ 32) ->
  exists s',
    arm_steps_plain (9 * S n) code (mk_arm rs fn fz fc fv 36 m stk) = Some s'
    /\ apc s' = 72 /\ astack s' = stk
    /\ amem s' = column_loop 15 (S n) m (rs 21) (rs 1) a (rs 22) (rs 4)
    /\ aregs s' 19 = a /\ aregs s' 20 = 320
    /\ aregs s' 22 = (rs 22 + Z.of_nat (S n) * rs 4) mod 2 ^ 32.
Proof.
  induction n as [|n IH];
    intros rs fn fz fc fv m stk H19 H20 H22 H21 H3.
  - change (9 * 1)%nat with 9%nat.
    do 8 arm_plain Hok.
    erewrite arm_steps_plain_next;
      [ | apply Hok; reflexivity | reflexivity
      | rewrite arm_exec_bcond; cbn [an az ac av apc];
        rewrite (arm_exit (rs 3 mod 2 ^ 32))
          by (pose proof (Z.mod_pos_bound (rs 3) (2 ^ 32) ltac:(lia)); lia);
        reflexivity ].
    eexists. split; [reflexivity|].
    cbn -[load8 store8]. split; [reflexivity|]. split; [reflexivity|]. split.
    + rewrite H19, Z.add_0_r, arm_index by exact H22. reflexivity.
    + split; [exact H19|]. split; [exact H20|].
      rewrite add32_step. f_equal. f_equal. destruct (rs 4); reflexivity.
  - replace (9 * S (S n))%nat with
      (S (S (S (S (S (S (S (S (S (9 * S n))))))))))%nat by lia.
    assert (Hn : rs 3 mod 2 ^ 32 = Z.of_nat (S n) /\ Z.of_nat (S n) < 2 ^ 31) by lia.
    clear H3. destruct Hn as [H3 Hn].
    do 8 arm_plain Hok.
    erewrite arm_steps_plain_next;
      [ | apply Hok; reflexivity | reflexivity
      | rewrite arm_exec_bcond; cbn [an az ac av apc];
        rewrite (ge_after_subs (rs 3 mod 2 ^ 32)) by (rewrite H3; lia);
        replace (1 <=? rs 3 mod 2 ^ 32) with true
          by (rewrite H3; symmetry; apply Z.leb_le; lia);
        reflexivity ].
    match goal with |- exists s', arm_steps_plain _ _ ?st = _ /\ _ =>
      destruct (IH (aregs st) (an st) (az st) (ac st) (av st) (amem st) stk)
        as [s' [Hr [Hpc [Hs [Hm [R19 [R20 R22]]]]]]] end.
    { cbn. exact H19. }
    { cbn. exact H20. }
    { cbn. apply Z.mod_pos_bound. lia. }
    { cbn. apply Z.mod_pos_bound. lia. }
    { left. cbn. rewrite Z.mod_mod, H3, Nat2Z.inj_succ by lia. rewrite Z.mod_small; lia. }
    exists s'. split; [exact Hr|]. split; [exact Hpc|]. split; [exact Hs|]. split.
    + rewrite Hm, (column_loop_S 15 (S n) m). cbn -[load8 store8 column_loop].
      rewrite H19, H20, Z.add_0_r, arm_index by exact H22. rewrite !Z.shiftl_0_r.
      unfold wrap64, wrap32.
      rewrite (Z.mod_small (rs 21)), (Z.mod_small 320) by lia.
      rewrite <- (Z.add_mod (rs 22) (rs 4)) by lia.
      reflexivity.
    + split; [exact R19|]. split; [exact R20|].
      rewrite R22. remember (Z.of_nat (S n)) as k1 eqn:Hk1.
      remember (Z.of_nat (S (S n))) as k2 eqn:Hk2.
      cbn. rewrite add32_step, Z.add_mod_idemp_l by lia.
      f_equal. lia.
Qed.

Lemma arm_draw_plain code a rs m stk dest source cmap count fracstep frac :
  arm_code_ok code a -> 0 <= a < 2 ^ 64 ->
  exists s',
    arm_steps_plain (9 + 9 * arm_iterations count) code
      (arm_call_state rs m stk dest source cmap count fracstep frac) = Some s'
    /\ apc s' = 72 /\ astack s' = rs 21 :: rs 21 :: rs 19 :: rs 19 :: stk
    /\ amem s' = column_loop 15 (arm_iterations count) m (wrap64 dest) source a
                   (wrap32 frac) fracstep
    /\ aregs s' 19 = a /\ aregs s' 20 = 320
    /\ aregs s' 22 = wrap32 (frac + Z.of_nat (arm_iterations count) * fracstep).
Proof.
  intros Hok Ha.
  assert (Hu : 0 <= count mod 2 ^ 32 < 2 ^ 32) by (apply Z.mod_pos_bound; lia).
  assert (Hit : exists n, arm_iterations count = S n /\
            (count mod 2 ^ 32 = Z.of_nat n /\ Z.of_nat n < 2 ^ 31
             \/ n = 0%nat /\ 2 ^ 31 <= count mod 2 ^ 32)).
  { unfold arm_iterations. destruct (Z.ltb_spec (count mod 2 ^ 32) (2 ^ 31)).
    - exists (Z.to_nat (count mod 2 ^ 32)). split; [reflexivity|]. left. lia.
    - exists 0%nat. split; [reflexivity|]. right. lia. }
  destruct Hit as [n [-> Hn]].
  change (9 + 9 * S n)%nat with (S (S (S (S (S (S (S (S (S (9 * S n))))))))))%nat.
  remember (Z.of_nat (S n)) as k eqn:Hk.
  unfold arm_call_state.
  do 9 arm_plain Hok.
  match goal with |- exists s', arm_steps_plain _ _ ?st = _ /\ _ =>
    destruct (arm_loop_plain code a Hok n (aregs st) (an st) (az st) (ac st)
                (av st) (amem st) (astack st))
      as [s' [Hr [Hpc [Hs [Hm [R19 [R20 R22]]]]]]] end.
  { exact (movk_chain a Ha). }
  { reflexivity. }
  { cbn. apply Z.mod_pos_bound. lia. }
  { cbn. apply Z.mod_pos_bound. lia. }
  { cbn. unfold wrap64. rewrite wrap64_mod32, ?Z.mod_mod by lia. exact Hn. }
  exists s'. split; [exact Hr|]. split; [exact Hpc|]. split; [rewrite Hs; reflexivity|].
  split.
  - rewrite Hm. cbn -[column_loop]. rewrite column_loop_wrap.
    rewrite !Z.mod_0_l, !Z.lor_0_l, !Z.shiftl_0_r by lia.
    unfold wrap32. unfold wrap64 at 2.
    unfold wrap64. rewrite wrap64_mod32, !Z.mod_mod by lia. reflexivity.
  - split; [exact R19|]. split; [exact R20|].
    rewrite R22, <- Hk. cbn.
    rewrite !Z.mod_0_l, !Z.lor_0_l, !Z.shiftl_0_r by lia.
    unfold wrap32, wrap64.
    rewrite !Z.mod_mod, wrap64_mod32 by lia.
    rewrite Z.add_mod_idemp_l by lia.
    rewrite <- Z.add_mod_idemp_r, <- Z.mul_mod_idemp_r, wrap64_mod32 by lia.
    rewrite Z.mul_mod_idemp_r, Z.add_mod_idemp_r by lia. reflexivity.
Qed.

End ArmPlain.

Lemma arm_call_cu code a rs m stk dest source cmap count fracstep frac :
  arm_code_ok code a -> 0 <= a < 2 ^ 64 ->
  let F := (9 + 9 * arm_iterations count + 3)%nat in
  let s0 := arm_call_state rs m stk dest source cmap count fracstep frac in
  (forall pick extra r, arm_run_cu pick (F + extra) code s0 = Some r ->
     snd r = F
     /\ amem (fst r) = column_loop 15 (arm_iterations count) m (wrap64 dest) source a
                        (wrap32 frac) fracstep
     /\ aregs (fst r) 20 = 320
     /\ aregs (fst r) 22 = wrap32 (frac + Z.of_nat (arm_iterations count) * fracstep))
  /\ (forall pick extra, (forall s1, pick s1 <> LdpUndefined) ->
        exists r, arm_run_cu pick (F + extra) code s0 = Some r)
  /\ (forall extra, exists s', arm_run_cu (fun _ => LdpNop) (F + extra) code s0 = Some (s', F)
        /\ aregs s' 19 = a /\ astack s' = rs 21 :: rs 21 :: rs 19 :: rs 19 :: stk).
Proof.
  intros Hok Ha F s0.
  destruct (arm_draw_plain code a rs m stk dest source cmap count fracstep frac Hok Ha)
    as [s' [Hr [Hpc [Hs [Hm [R19 [R20 R22]]]]]]].
  assert (Hrun : forall pick extra, arm_run_cu pick (F + extra) code s0
            = run_shift (9 + 9 * arm_iterations count) (arm_run_cu pick (3 + extra) code s')).
  { intros pick extra. unfold F. rewrite <- (arm_steps_plain_run_cu pick _ code s0 s' (3 + extra) Hr).
    f_equal. lia. }
  split; [|split].
  - intros pick extra r H. rewrite Hrun in H.
    destruct (arm_epilogue_cu code a pick s' extra _ _ _ _ stk Hok Hpc Hs) as [E _].
    destruct (arm_run_cu pick (3 + extra) code s') as [[s2 k]|] eqn:E2; [|discriminate].
    cbn in H. injection H as <-.
    destruct (E _ eq_refl) as [Ek [Em [E20 E22]]]. cbn in Ek, Em, E20, E22 |- *.
    subst k. split; [unfold F; lia|].
    rewrite Em, E20, E22. split; [exact Hm|]. split; assumption.
  - intros pick extra Hnu. rewrite Hrun.
    destruct (arm_epilogue_cu code a pick s' extra _ _ _ _ stk Hok Hpc Hs) as [_ [E _]].
    destruct (E Hnu) as [r Er]. rewrite Er. destruct r. eexists. reflexivity.
  - intros extra. rewrite Hrun.
    destruct (arm_epilogue_cu code a (fun _ => LdpNop) s' extra _ _ _ _ stk Hok Hpc Hs)
      as [_ [_ [s2 [E2 [Ea Est]]]]].
    rewrite E2. exists s2. split; [cbn; f_equal; f_equal; unfold F; lia|].
    rewrite Ea, Est. split; [exact R19|exact Hs].
Qed.

(** ** The generator: shape of the effects *)

Lemma apply_events_app buf l1 l2 :
  apply_events buf (l1 ++ l2) = apply_events (apply_events buf l1) l2.
Proof. unfold apply_events. apply fold_left_app. Qed.

(** A rewriting call, spelled out. *)
Lemma gen_fresh t st a base :
  t <> Unsupported -> jit_code st = Some base -> a <> jit_current_colormap st ->
  R_JIT_GenerateDrawColumn t st a
  = (mk_jit (Some base) (apply_events (jit_buf st) (gen_events t base a)) (Some base) a,
     gen_events t base a).
Proof.
  intros Ht Hc Ha. unfold R_JIT_GenerateDrawColumn. rewrite Hc.
  apply Z.eqb_neq in Ha. rewrite Ha. destruct t; [reflexivity..|contradiction].
Qed.

(** After any call on a supported target with a buffer, the address baked
    is the argument and the buffer stays. *)
Lemma gen_current t st a base :
  t <> Unsupported -> jit_code st = Some base ->
  jit_current_colormap (fst (R_JIT_GenerateDrawColumn t st a)) = a
  /\ jit_code (fst (R_JIT_GenerateDrawColumn t st a)) = Some base.
Proof.
  intros Ht Hc. unfold R_JIT_GenerateDrawColumn. rewrite Hc.
  destruct (Z.eqb a (jit_current_colormap st) && is_set (jit_compiled_fn st)) eqn:E.
  - apply andb_true_iff in E as [E _]. apply Z.eqb_eq in E.
    destruct t; try contradiction; (split; [symmetry; exact E | exact Hc]).
  - destruct t; try contradiction; split; reflexivity.
Qed.

(** ** Single steps of the move-wide sequence *)

Lemma arm_steps_next n code s i s1 :
  arm_decode (arm_fetch code (apc s)) = Some i -> arm_exec i s = Next s1 ->
  arm_steps (S n) code s = arm_steps n code s1.
Proof. intros Hd He. cbn [arm_steps]. unfold arm_step. rewrite Hd, He. reflexivity. Qed.

Section MoveWide.

Local Arguments Z.shiftr : simpl never.
Local Arguments Z.shiftl : simpl never.
Local Arguments Z.testbit : simpl never.
Local Arguments Z.land : simpl never.
Local Arguments Z.lor : simpl never.
Local Arguments Z.lnot : simpl never.
Local Arguments Z.pow : simpl never.
Local Arguments Z.modulo : simpl never.
Local Arguments Z.ones : simpl never.

(** Words 2..5 of the ARM64 code, run from any state, leave [a] in x19. *)
Lemma arm_movw_steps code a s :
  arm_code_ok code a -> 0 <= a < 2 ^ 64 -> apc s = 8 ->
  exists s', arm_steps 4 code s = Some s' /\ aregs s' 19 = a /\ apc s' = 24.
Proof.
  intros Hok Ha Hpc. destruct s as [rs n z c v pc m stk]. cbn in Hpc. subst pc.
  do 4 (erewrite arm_steps_next;
        [ | apply Hok; reflexivity | unfold arm_exec, arm_set; cbn -[load8 store8]; reflexivity ]).
  eexists. split; [reflexivity|]. split; [|reflexivity].
  exact (movk_chain a Ha).
Qed.

End MoveWide.

(** ** The harness *)

Lemma run_ops_app t h l1 l2 :
  run_ops t h (l1 ++ l2)
  = (fst (run_ops t (fst (run_ops t h l1)) l2),
     snd (run_ops t h l1) ++ snd (run_ops t (fst (run_ops t h l1)) l2)).
Proof.
  revert h. induction l1 as [|o l1 IH]; intros h.
  - cbn. destruct (run_ops t h l2). reflexivity.
  - cbn [app run_ops]. destruct (step t h o) as [h1 out1].
    rewrite IH. destruct (run_ops t h1 l1) as [h2 out2]. cbn.
    rewrite app_assoc. reflexivity.
Qed.

(** [k] draws: only [jit_frame_calls] moves, and they all take the path
    chosen by the state before them. *)
Lemma draws_run t h k :
  run_ops t h (repeat OpDraw k)
  = (mk_h (h_jit h) (h_stats h) (h_mode h) (h_frame_start h)
          (Nat.iter k (fun c => wrap64 (c + 1)) (h_frame_calls h))
          (h_last_switch h) (h_auto h) (h_interval_ns h) (h_log h)
          (h_flush_counter h) (h_program_start h),
     repeat (ODraw (snd (R_DrawColumn h))) k).
Proof.
  revert h. induction k as [|k IH]; intros h.
  - destruct h; reflexivity.
  - cbn [repeat run_ops step]. unfold R_DrawColumn at 1. cbn -[R_DrawColumn].
    rewrite IH. f_equal. f_equal. exact (eq_sym (Nat.iter_succ_r k _ _ _)).
Qed.

Lemma iter_wrap k c :
  Nat.iter k (fun c => wrap64 (c + 1)) c = wrap64 (c + Z.of_nat k)
  \/ k = O.
Proof.
  destruct k as [|k]; [right; reflexivity|left].
  induction k as [|k IH].
  - cbn. f_equal.
  - rewrite Nat.iter_succ, IH. unfold wrap64.
    rewrite Z.add_mod_idemp_l by lia. f_equal. lia.
Qed.

(** One frame with auto-switch off: mode, switch settings and log
    presence are kept, the statistics get [add_frame]. *)
Lemma frame_run t h f :
  h_auto h = false ->
  let h' := fst (run_ops t h (frame_ops f)) in
  h_mode h' = h_mode h /\ h_auto h' = false
  /\ h_stats h' = add_frame (h_mode h) (Nat.iter (fr_draws f) (fun c => wrap64 (c + 1)) 0)
                    (ns_between (fr_start1 f) (fr_end f)) (h_stats h).
Proof.
  intros Ha. unfold frame_ops.
  change (OpFrameStart (fr_start1 f) (fr_start2 f) :: repeat OpDraw (fr_draws f)
          ++ [OpFrameEnd (fr_end f)])
    with ([OpFrameStart (fr_start1 f) (fr_start2 f)] ++ repeat OpDraw (fr_draws f)
          ++ [OpFrameEnd (fr_end f)]).
  rewrite !run_ops_app. cbn [fst run_ops step]. rewrite draws_run. cbn.
  unfold R_JIT_FrameEnd, R_JIT_FrameStart. rewrite Ha. cbn.
  destruct (h_log h) as [l|]; cbn; [destruct (100 <=? _)|]; cbn; auto.
Qed.

Lemma frames_run t h fs :
  h_auto h = false ->
  let h' := fst (run_ops t h (frames_ops fs)) in
  h_mode h' = h_mode h /\ h_auto h' = false
  /\ h_stats h' = frames_stats (h_mode h) fs (h_stats h).
Proof.
  revert h. induction fs as [|f fs IH]; intros h Ha; [auto|].
  cbn [frames_ops flat_map]. fold (frames_ops fs). rewrite run_ops_app.
  destruct (frame_run t h f Ha) as [Hm [Ha' Hs]].
  destruct (IH _ Ha') as [Hm2 [Ha2 Hs2]]. cbn [fst]. rewrite Hm2, Ha2, Hs2, Hs, Hm.
  auto.
Qed.

Lemma iter_wrap0 k : Nat.iter k (fun c => wrap64 (c + 1)) 0 = wrap64 (Z.of_nat k).
Proof. destruct (iter_wrap k 0) as [H | H]; [exact H | subst k; reflexivity]. Qed.

Lemma wrap64_add_l x c : wrap64 (wrap64 x + c) = wrap64 (x + c).
Proof. unfold wrap64. apply Z.add_mod_idemp_l. lia. Qed.

Lemma wrap64_add3 a b c : wrap64 (wrap64 (a + wrap64 b) + c) = wrap64 (a + (b + c)).
Proof.
  rewrite wrap64_add_l. unfold wrap64.
  replace (a + b mod 2 ^ 64 + c) with ((a + c) + b mod 2 ^ 64) by ring.
  rewrite Z.add_mod_idemp_r by lia. f_equal. ring.
Qed.

Lemma frames_stats_spec mode fs s :
  0 <= jit_calls s < 2 ^ 64 -> 0 <= jit_frames s < 2 ^ 64 ->
  0 <= branch_calls s < 2 ^ 64 -> 0 <= branch_frames s < 2 ^ 64 ->
  let n := Z.of_nat (List.length fs) in
  let c := Z.of_nat (list_sum (map fr_draws fs)) in
  let e := fold_right Z.add 0 (map (fun f => ns_between (fr_start1 f) (fr_end f)) fs) in
  frames_stats mode fs s =
  if mode then
    mk_stats (wrap64 (jit_calls s + c)) (branch_calls s) (wrap64 (jit_frames s + n))
             (branch_frames s) (jit_time_ns s + e) (branch_time_ns s)
  else
    mk_stats (jit_calls s) (wrap64 (branch_calls s + c)) (jit_frames s)
             (wrap64 (branch_frames s + n)) (jit_time_ns s) (branch_time_ns s + e).
Proof.
  revert s. induction fs as [|f fs IH]; intros s H1 H2 H3 H4; cbn zeta.
  - destruct s; cbn in *. unfold wrap64.
    rewrite !Z.add_0_r, !Z.mod_small by lia. destruct mode; reflexivity.
  - cbn [frames_stats]. rewrite IH by (destruct mode; cbn; auto using wrap64_bound).
    rewrite iter_wrap0. cbn [List.length list_sum map fold_right].
    destruct mode; cbn; unfold list_sum; f_equal;
      rewrite ?wrap64_add3, ?wrap64_add_l, ?Zpos_P_of_succ_nat, ?Nat2Z.inj_add;
      try (f_equal; lia); lia.
Qed.

Lemma step_ref_only t h o :
  ref_only t h -> (t = Unsupported \/ reallocates o = false) ->
  ref_only t (fst (step t h o))
  /\ Forall (fun x => x = ODraw Reference \/ x = OGen []) (snd (step t h o)).
Proof.
  intros [Hf Hc] Ho. unfold ref_only.
  destruct o as [alloc log_ok now| | |now|t1 t2|te|cm|]; cbn.
  - split; [split; [exact Hf|] | constructor].
    destruct Hc as [->|_]; [left; reflexivity|].
    destruct Ho as [->|Ho]; [left; reflexivity|]. destruct alloc; [discriminate|].
    right; reflexivity.
  - split; [split; [exact Hf|right; reflexivity] | constructor].
  - split; [split; assumption | constructor].
  - split; [split; assumption | constructor].
  - split; [split; assumption | constructor].
  - unfold R_JIT_FrameEnd. destruct (h_log h) as [l|]; [destruct (100 <=? _)|]; cbn;
      (split; [split; assumption | constructor]).
  - unfold R_JIT_GenerateDrawColumn.
    destruct Hc as [->|Hc]; [|rewrite Hc; destruct t]; cbn;
      (split; [split; auto | constructor; [right; reflexivity | constructor]]).
  - unfold R_JIT_GetDrawColumn. rewrite Hf. split; [split; auto|].
    destruct (h_mode h); (constructor; [left; reflexivity | constructor]).
Qed.

Lemma run_ref_only t h ops :
  ref_only t h -> (t = Unsupported \/ forallb (fun o => negb (reallocates o)) ops = true) ->
  ref_only t (fst (run_ops t h ops))
  /\ Forall (fun x => x = ODraw Reference \/ x = OGen []) (snd (run_ops t h ops)).
Proof.
  revert h. induction ops as [|o ops IH]; intros h Hh Hops; [split; [exact Hh|constructor]|].
  change (o :: ops) with ([o] ++ ops). rewrite run_ops_app.
  assert (Ho : t = Unsupported \/ reallocates o = false).
  { destruct Hops as [->|Hops]; [left; reflexivity|right].
    cbn in Hops. apply andb_true_iff in Hops as [Ho _]. apply negb_true_iff, Ho. }
  assert (Hs : ref_only t (fst (run_ops t h [o]))
               /\ Forall (fun x => x = ODraw Reference \/ x = OGen []) (snd (run_ops t h [o]))).
  { cbn. destruct (step t h o) as [h1 out1] eqn:E.
    pose proof (step_ref_only t h o Hh Ho) as Hso. rewrite E in Hso. cbn in *.
    rewrite app_nil_r. exact Hso. }
  destruct Hs as [Hs1 Hs2].
  destruct (IH _ Hs1) as [Hr1 Hr2].
  { destruct Hops as [->|Hops]; [left; reflexivity|right].
    cbn in Hops. apply andb_true_iff in Hops as [_ Hops]. exact Hops. }
  split; [exact Hr1|]. cbn [snd]. apply Forall_app. split; assumption.
Qed.

(** ** The column loop touches only the column *)

Lemma column_loop_frame mask n m d src cm f fs x :
  (forall k, (k < n)%nat -> x <> wrap64 (d + 320 * Z.of_nat k)) ->
  column_loop mask n m d src cm f fs x = m x.
Proof.
  revert m d f. induction n as [|n IH]; intros m d f H; [reflexivity|].
  rewrite column_loop_S, IH.
  - unfold store8, upd. destruct (Z.eqb_spec x (wrap64 d)) as [E|_]; [|reflexivity].
    exfalso. apply (H 0%nat); [lia|]. rewrite E. f_equal. lia.
  - intros k Hk E. apply (H (S k)); [lia|]. rewrite E. unfold wrap64.
    rewrite Z.add_mod_idemp_l by lia. f_equal. lia.
Qed.

(** ** Harness invariants *)

Lemma frame_run_any t h f :
  h_stats (fst (run_ops t h (frame_ops f)))
  = add_frame (h_mode (R_JIT_FrameStart (fr_start1 f) (fr_start2 f) h))
      (Nat.iter (fr_draws f) (fun c => wrap64 (c + 1)) 0)
      (ns_between (fr_start1 f) (fr_end f)) (h_stats h).
Proof.
  unfold frame_ops.
  change (OpFrameStart (fr_start1 f) (fr_start2 f) :: repeat OpDraw (fr_draws f)
          ++ [OpFrameEnd (fr_end f)])
    with ([OpFrameStart (fr_start1 f) (fr_start2 f)] ++ repeat OpDraw (fr_draws f)
          ++ [OpFrameEnd (fr_end f)]).
  rewrite !run_ops_app. cbn [fst run_ops step]. rewrite draws_run. cbn.
  unfold R_JIT_FrameEnd. cbn.
  destruct (h_log _) as [l|]; cbn; [destruct (100 <=? _)|]; reflexivity.
Qed.

Lemma add_frame_sums mode c e s :
  let s' := add_frame mode c e s in
  wrap64 (jit_frames s' + branch_frames s') = wrap64 (jit_frames s + branch_frames s + 1)
  /\ wrap64 (jit_calls s' + branch_calls s') = wrap64 (jit_calls s + branch_calls s + c)
  /\ jit_time_ns s' + branch_time_ns s' = jit_time_ns s + branch_time_ns s + e.
Proof.
  destruct mode; cbn; unfold wrap64.
  - rewrite !Z.add_mod_idemp_l by lia. repeat split; try (f_equal; lia); lia.
  - rewrite !Z.add_mod_idemp_r by lia. repeat split; try (f_equal; lia); lia.
Qed.

(** The log bookkeeping: the static [flush_counter] stays below 100 and
    counts at least the rows written since the last flush. *)
Lemma step_unflushed t h o :
  0 <= h_flush_counter h < 100 ->
  (forall l, h_log h = Some l ->
     (log_flushed l <= List.length (log_rows l))%nat
     /\ Z.of_nat (List.length (log_rows l) - log_flushed l) <= h_flush_counter h) ->
  let h' := fst (step t h o) in
  0 <= h_flush_counter h' < 100
  /\ (forall l, h_log h' = Some l ->
        (log_flushed l <= List.length (log_rows l))%nat
        /\ Z.of_nat (List.length (log_rows l) - log_flushed l) <= h_flush_counter h').
Proof.
  intros Hc Hl. destruct o as [alloc log_ok now| | |now|t1 t2|te|cm|]; cbn.
  - split; [exact Hc|]. intros l E. destruct log_ok; [|discriminate].
    injection E as <-. cbn. lia.
  - split; [exact Hc|]. discriminate.
  - split; [exact Hc|]. exact Hl.
  - split; [exact Hc|]. exact Hl.
  - split; [exact Hc|]. exact Hl.
  - unfold R_JIT_FrameEnd. cbn.
    destruct (h_log h) as [l0|] eqn:E; cbn.
    + destruct (Hl l0 eq_refl) as [H1 H2].
      rewrite length_app. cbn [List.length].
      destruct (Z.leb_spec 100 (h_flush_counter h + 1)); cbn.
      * split; [lia|]. intros l El. injection El as <-. cbn.
        rewrite length_app. cbn [List.length]. rewrite Nat.sub_diag. lia.
      * split; [lia|]. intros l El. injection El as <-. cbn.
        rewrite length_app. cbn [List.length]. lia.
    + split; [exact Hc|]. discriminate.
  - destruct (R_JIT_GenerateDrawColumn t (h_jit h) cm). cbn. split; [exact Hc|]. exact Hl.
  - split; [exact Hc|]. exact Hl.
Qed.

Lemma run_unflushed t h ops :
  0 <= h_flush_counter h < 100 ->
  (forall l, h_log h = Some l ->
     (log_flushed l <= List.length (log_rows l))%nat
     /\ Z.of_nat (List.length (log_rows l) - log_flushed l) <= h_flush_counter h) ->
  let h' := fst (run_ops t h ops) in
  0 <= h_flush_counter h' < 100
  /\ (forall l, h_log h' = Some l ->
        (log_flushed l <= List.length (log_rows l))%nat
        /\ Z.of_nat (List.length (log_rows l) - log_flushed l) <= h_flush_counter h').
Proof.
  revert h. induction ops as [|o ops IH]; intros h Hc Hl; [split; assumption|].
  cbn [run_ops]. destruct (step_unflushed t h o Hc Hl) as [Hc1 Hl1].
  destruct (step t h o) as [h1 out1] eqn:E. cbn [fst] in Hc1, Hl1.
  destruct (IH h1 Hc1 Hl1) as [Hc2 Hl2].
  destruct (run_ops t h1 ops) as [h2 out2]. split; assumption.
Qed.

Lemma frame_end_keeps t h :
  h_jit (R_JIT_FrameEnd t h) = h_jit h /\ h_mode (R_JIT_FrameEnd t h) = h_mode h
  /\ h_auto (R_JIT_FrameEnd t h) = h_auto h.
Proof.
  unfold R_JIT_FrameEnd. cbn.
  destruct (h_log h) as [l|]; cbn; [destruct (100 <=? _)|]; auto.
Qed.

(** Without a mapping, no call but a successful [R_JIT_Init] brings one
    back, and [R_JIT_GenerateDrawColumn] returns at its NULL check. *)
Lemma step_no_buffer t h o :
  t <> Unsupported -> jit_code (h_jit h) = None -> reallocates o = false ->
  jit_code (h_jit (fst (step t h o))) = None
  /\ jit_compiled_fn (h_jit (fst (step t h o))) = jit_compiled_fn (h_jit h)
  /\ Forall (fun x => match x with OGen es => es = [] | ODraw _ => True end)
       (snd (step t h o)).
Proof.
  intros Ht Hc Ho. destruct o as [alloc log_ok now| | |now|t1 t2|te|cm|]; cbn.
  - destruct alloc; [discriminate|]. auto.
  - auto.
  - auto.
  - auto.
  - auto.
  - destruct (frame_end_keeps te h) as [-> _]. auto.
  - unfold R_JIT_GenerateDrawColumn.
    destruct t; [| | |contradiction]; rewrite Hc; cbn; auto.
  - auto.
Qed.

Lemma step_mode_kept t h o :
  h_auto h = false ->
  match o with OpToggle | OpToggleAutoSwitch _ | OpInit _ _ _ => False | _ => True end ->
  h_mode (fst (step t h o)) = h_mode h /\ h_auto (fst (step t h o)) = false.
Proof.
  intros Ha Ho. destruct o as [alloc log_ok now| | |now|t1 t2|te|cm|]; cbn;
    try contradiction; auto.
  - unfold R_JIT_FrameStart. rewrite Ha. cbn. auto.
  - destruct (frame_end_keeps te h) as [_ [-> ->]]. auto.
  - destruct (R_JIT_GenerateDrawColumn t (h_jit h) cm). cbn. auto.
Qed.

Lemma step_program_start t h o :
  tv_sec (h_program_start h) <> 0 ->
  h_program_start (fst (step t h o)) = h_program_start h.
Proof.
  intros Hp. destruct o as [alloc log_ok now| | |now|t1 t2|te|cm|]; cbn; auto.
  - unfold R_JIT_FrameEnd. cbn.
    destruct (Z.eqb_spec (tv_sec (h_program_start h)) 0) as [E|_]; [contradiction|].
    destruct (h_log h) as [l|]; cbn; [destruct (100 <=? _)|]; reflexivity.
  - destruct (R_JIT_GenerateDrawColumn t (h_jit h) cm). reflexivity.
Qed.

(** ** Footprint of the rewriting call *)

Lemma memcpy_at buf off bs x :
  memcpy buf off bs x =
  if (off <=? x) && (x <? off + Z.of_nat (List.length bs))
  then nth (Z.to_nat (x - off)) bs 0 else buf x.
Proof.
  revert buf off. induction bs as [|c bs IH]; intros buf off; cbn [memcpy List.length].
  - destruct ((off <=? x) && (x <? off + Z.of_nat 0)) eqn:E; [|reflexivity].
    apply andb_true_iff in E as [E1 E2]. apply Z.leb_le in E1. apply Z.ltb_lt in E2. lia.
  - rewrite IH, Nat2Z.inj_succ. unfold upd.
    destruct (Z.leb_spec (off + 1) x), (Z.ltb_spec x (off + 1 + Z.of_nat (List.length bs))),
      (Z.leb_spec off x), (Z.ltb_spec x (off + Z.succ (Z.of_nat (List.length bs)))),
      (Z.eqb_spec x off); cbn [andb]; try lia; try reflexivity.
    + replace (Z.to_nat (x - off)) with (S (Z.to_nat (x - (off + 1)))) by lia.
      reflexivity.
    + subst x. rewrite Z.sub_diag. reflexivity.
Qed.

Lemma apply_events_outside buf es x :
  Forall (fun e => match e with
                   | EvStore off bs => ~ (off <= x < off + Z.of_nat (List.length bs))
                   | _ => True end) es ->
  apply_events buf es x = buf x.
Proof.
  unfold apply_events. revert buf.
  induction es as [|e es IH]; intros buf H; [reflexivity|].
  inversion H as [|e' es' He Hes]; subst. cbn [fold_left]. rewrite IH by exact Hes.
  destruct e as [on|off bs|off len|entry]; cbn; try reflexivity.
  rewrite memcpy_at.
  destruct (Z.leb_spec off x); destruct (Z.ltb_spec x (off + Z.of_nat (List.length bs)));
    cbn; try reflexivity; lia.
Qed.

Lemma apply_events_indep buf buf' es x :
  Exists (fun e => match e with
                   | EvStore off bs => off <= x < off + Z.of_nat (List.length bs)
                   | _ => False end) es ->
  apply_events buf es x = apply_events buf' es x.
Proof.
  unfold apply_events. revert buf buf'.
  induction es as [|e es IH]; intros buf buf' H; [inversion H|].
  cbn [fold_left].
  destruct (Exists_dec (fun e => match e with
                   | EvStore off bs => off <= x < off + Z.of_nat (List.length bs)
                   | _ => False end) es) as [Hin|Hout].
  { intros [on|off bs|off len|entry]; [right; intros [] | | right; intros [] | right; intros []].
    destruct (Z_le_gt_dec off x); [|right; lia].
    destruct (Z_lt_ge_dec x (off + Z.of_nat (List.length bs))); [left; lia|right; lia]. }
  - apply IH. exact Hin.
  - inversion H as [e' es' He|e' es' Hes]; subst; [|contradiction].
    rewrite <- Forall_Exists_neg in Hout.
    change (fold_left apply_event es (apply_event buf e))
      with (apply_events (apply_event buf e) es).
    change (fold_left apply_event es (apply_event buf' e))
      with (apply_events (apply_event buf' e) es).
    rewrite !apply_events_outside
      by (eapply Forall_impl; [|exact Hout]; intros [] Hn; auto).
    destruct e as [on|off bs|off len|entry]; try contradiction. cbn.
    rewrite !memcpy_at.
    destruct (Z.leb_spec off x); destruct (Z.ltb_spec x (off + Z.of_nat (List.length bs)));
      cbn; try reflexivity; lia.
Qed.

Lemma length_le_bytes n x : List.length (le_bytes n x) = n.
Proof. unfold le_bytes. rewrite length_map, length_seq. reflexivity. Qed.

Lemma arm_stores_cover i ws x :
  4 * i <= x < 4 * (i + Z.of_nat (List.length ws)) ->
  Exists (fun e => match e with
                   | EvStore off bs => off <= x < off + Z.of_nat (List.length bs)
                   | _ => False end) (arm_stores i ws).
Proof.
  revert i. induction ws as [|w ws IH]; intros i H; cbn [List.length] in H; [lia|].
  cbn [arm_stores]. destruct (Z.lt_ge_cases x (4 * i + 4)).
  - apply Exists_cons_hd. rewrite length_le_bytes. cbn [Z.of_nat]. lia.
  - apply Exists_cons_tl. apply IH. lia.
Qed.

Lemma arm_stores_outside i ws x :
  x < 4 * i \/ 4 * (i + Z.of_nat (List.length ws)) <= x ->
  Forall (fun e => match e with
                   | EvStore off bs => ~ (off <= x < off + Z.of_nat (List.length bs))
                   | _ => True end) (arm_stores i ws).
Proof.
  revert i. induction ws as [|w ws IH]; intros i H; [constructor|].
  cbn [List.length] in H. cbn [arm_stores]. constructor.
  - rewrite length_le_bytes. cbn [Z.of_nat]. lia.
  - apply IH. lia.
Qed.

Lemma length_arm_words a : List.length (arm_words a) = 21%nat.
Proof. reflexivity. Qed.

(** The bytes a rewriting call writes: [[0, 84)] for ARM64 (21 words),
    [[0, 59)] for the x86-64 template. *)
Lemma gen_events_cover t base a x :
  0 <= x < (match t with Arm64Apple | Arm64Other => 84 | _ => 59 end) ->
  Exists (fun e => match e with
                   | EvStore off bs => off <= x < off + Z.of_nat (List.length bs)
                   | _ => False end) (gen_events t base a).
Proof.
  intros Hx. destruct t; cbn [gen_events].
  - apply Exists_app. right. apply Exists_app. left.
    apply arm_stores_cover. rewrite length_arm_words. lia.
  - apply Exists_app. left.
    apply arm_stores_cover. rewrite length_arm_words. lia.
  - apply Exists_cons_hd. cbn. lia.
  - apply Exists_cons_hd. cbn. lia.
Qed.

Lemma gen_events_outside t base a x :
  ~ 0 <= x < (match t with Arm64Apple | Arm64Other => 84 | _ => 59 end) ->
  Forall (fun e => match e with
                   | EvStore off bs => ~ (off <= x < off + Z.of_nat (List.length bs))
                   | _ => True end) (gen_events t base a).
Proof.
  intros Hx. destruct t; cbn [gen_events].
  - apply Forall_app. split; [repeat constructor|].
    apply Forall_app. split; [|repeat constructor].
    apply arm_stores_outside. rewrite length_arm_words. lia.
  - apply Forall_app. split; [|repeat constructor].
    apply arm_stores_outside. rewrite length_arm_words. lia.
  - constructor; [cbn; lia|]. constructor; [rewrite length_le_bytes; unfold X86_64_COLORMAP_OFFSET; cbn; lia|].
    repeat constructor.
  - constructor; [cbn; lia|]. constructor; [rewrite length_le_bytes; unfold X86_64_COLORMAP_OFFSET; cbn; lia|].
    repeat constructor.
Qed.

(** A rewriting call leaves no byte of an earlier one. *)
Lemma gen_events_overwrite t base base' a b buf x :
  apply_events (apply_events buf (gen_events t base' b)) (gen_events t base a) x
  = apply_events buf (gen_events t base a) x.
Proof.
  destruct (Z.le_gt_cases 0 x);
  [destruct (Z.lt_ge_cases x (match t with Arm64Apple | Arm64Other => 84 | _ => 59 end))|].
  - apply apply_events_indep. apply gen_events_cover. lia.
  - rewrite !apply_events_outside by (apply gen_events_outside; lia). reflexivity.
  - rewrite !apply_events_outside by (apply gen_events_outside; lia). reflexivity.
Qed.

(** * Claims *)

(** ** Instruction views after a rewrite *)

Lemma icache_invalidated_app l1 l2 x :
  icache_invalidated (l1 ++ l2) x = icache_invalidated l1 x || icache_invalidated l2 x.
Proof. unfold icache_invalidated. apply existsb_app. Qed.

Lemma icache_invalidated_arm_stores i ws x : icache_invalidated (arm_stores i ws) x = false.
Proof. revert i. induction ws as [|w ws IH]; intros i; [reflexivity|]. exact (IH (i + 1)). Qed.

Lemma icache_invalidated_other base a x :
  icache_invalidated (gen_events Arm64Other base a) x = false.
Proof.
  unfold gen_events. rewrite icache_invalidated_app, icache_invalidated_arm_stores. reflexivity.
Qed.

Lemma icache_invalidated_apple base a x :
  icache_invalidated (gen_events Arm64Apple base a) x = (0 <=? x) && (x <? 84).
Proof.
  unfold gen_events. rewrite !icache_invalidated_app, icache_invalidated_arm_stores,
    length_arm_words. cbn. destruct ((0 <=? x) && (x <? 84)); reflexivity.
Qed.

Lemma fetch_allowed_x86 es old new code :
  fetch_allowed X86_64 es old new code -> code = new.
Proof.
  intros H. apply functional_extensionality. intros x.
  pose proof (Z.div_mod x 4 ltac:(lia)) as Hx.
  pose proof (Z.mod_pos_bound x 4 ltac:(lia)) as Hb.
  destruct (H (x / 4)) as [E | [Hn _]]; [|congruence].
  specialize (E (x mod 4) Hb). rewrite <- Hx in E. exact E.
Qed.

Lemma fetch_allowed_new t es old new code pc :
  fetch_allowed t es old new code -> icache_invalidated es (4 * (pc / 4)) = true ->
  code pc = new pc.
Proof.
  intros H Hi.
  pose proof (Z.div_mod pc 4 ltac:(lia)) as Hx.
  pose proof (Z.mod_pos_bound pc 4 ltac:(lia)) as Hb.
  destruct (H (pc / 4)) as [E | [_ [Hn _]]]; [|congruence].
  specialize (E (pc mod 4) Hb). rewrite <- Hx in E. exact E.
Qed.

Lemma fetch_allowed_old t es old new :
  t <> X86_64 -> (forall x, icache_invalidated es x = false) ->
  fetch_allowed t es old new old.
Proof. intros Ht Hi k. right. split; [exact Ht|]. split; [apply Hi|]. reflexivity. Qed.

Lemma arm_code_ok_ext code code' a :
  (forall pc, 0 <= pc < 84 -> code' pc = code pc) -> arm_code_ok code a -> arm_code_ok code' a.
Proof.
  intros E H pc i Hat.
  pose proof Hat as Hat'. unfold arm_at in Hat'.
  destruct ((0 <=? pc) && (pc mod 4 =? 0)) eqn:B; [|discriminate].
  apply andb_true_iff in B as [B1 B2]. apply Z.leb_le in B1. apply Z.eqb_eq in B2.
  assert (Hk : (Z.to_nat (pc / 4) < 21)%nat).
  { change 21%nat with (List.length (arm_prog a)). apply nth_error_Some.
    rewrite Hat'. discriminate. }
  assert (Hpc : pc <= 80).
  { pose proof (Z.div_mod pc 4 ltac:(lia)). assert (pc / 4 < 21) by lia. lia. }
  unfold arm_fetch. rewrite !E by lia. apply H. exact Hat.
Qed.

(** C1: the emitted code against the reference loop of the specification.
    On the sample input ([count = 0], [frac = 0x100000], so that
    [(frac >> 16) & 127 = 16]) the reference loop and the x86_64 code both
    store [a[source[16]] = 60] at [dest], but the ARM64 code, Apple build or
    not, stores [a[source[0]] = 50]: its word [0x53104ec8] is
    [ubfm w8, w22, #16, #19], which keeps bits 16..19 of [frac] only, so
    its texture index is [(frac >> 16) & 15]. *)
Theorem C1_arm64_texture_index_divergence buf base rs stk :
  load8 (ref_draw_column sample_mem 5000 1000 sample_cmap 0 0 0x100000) 5000 = 60
  /\ (exists s',
        x86_run 20 (apply_events buf (gen_events X86_64 base sample_cmap))
          (x86_call_state rs sample_mem stk 5000 1000 sample_cmap 0 0 0x100000)
        = Some (s', 20%nat)
      /\ load8 (xmem s') 5000 = 60)
  /\ (exists s',
        arm_run 21 (apply_events buf (gen_events Arm64Other base sample_cmap))
          (arm_call_state rs sample_mem stk 5000 1000 sample_cmap 0 0 0x100000)
        = Some (s', 21%nat)
      /\ load8 (amem s') 5000 = 50)
  /\ (exists s',
        arm_run 21 (apply_events buf (gen_events Arm64Apple base sample_cmap))
          (arm_call_state rs sample_mem stk 5000 1000 sample_cmap 0 0 0x100000)
        = Some (s', 21%nat)
      /\ load8 (amem s') 5000 = 50).
Proof.
  assert (Ha : 0 <= sample_cmap < 2 ^ 64) by (unfold sample_cmap; lia).
  assert (Hc : 0 <= 0 < 2 ^ 31) by lia.
  assert (Harm : exists s',
            arm_run 21 (apply_events buf (gen_events Arm64Other base sample_cmap))
              (arm_call_state rs sample_mem stk 5000 1000 sample_cmap 0 0 0x100000)
            = Some (s', 21%nat) /\ load8 (amem s') 5000 = 50).
  { destruct (arm_draw_column _ sample_cmap rs sample_mem stk 5000 1000 sample_cmap 0 0
                0x100000 0 (arm_gen_code_ok buf base sample_cmap) Ha Hc)
      as [s' [Hr [Hm _]]].
    exists s'. split; [exact Hr|]. rewrite Hm. vm_compute. reflexivity. }
  split; [vm_compute; reflexivity|].
  split; [|split; [exact Harm | rewrite apply_events_apple; exact Harm]].
  destruct (x86_draw_column _ sample_cmap rs sample_mem stk 5000 1000 sample_cmap 0 0
              0x100000 0 (x86_gen_code_ok buf base sample_cmap Ha) Ha Hc)
    as [s' [Hr [Hm _]]].
  exists s'. split; [exact Hr|]. rewrite Hm. vm_compute. reflexivity.
Qed.

(** C2: the order of the effects of one call.  A call either has no
    effect on the buffer and publishes nothing, or it writes instruction
    bytes only (inside the first 84 bytes), after which it publishes the
    entry point as its last effect.  The write-protect toggles and the
    instruction-cache invalidation of the 84 bytes written occur on the
    Apple ARM64 build only: the other ARM64 builds (and x86_64) publish
    right after the stores, with no cache invalidation. *)
Theorem C2_effects_order t st a :
  let '(st', es) := R_JIT_GenerateDrawColumn t st a in
  (es = [] /\ jit_buf st' = jit_buf st /\ jit_code st' = jit_code st
   /\ (jit_compiled_fn st' = jit_compiled_fn st \/ jit_compiled_fn st' = None))
  \/ (exists base stores,
        t <> Unsupported /\ jit_code st = Some base
        /\ forallb is_store stores = true
        /\ forallb (store_within 0 84) stores = true
        /\ jit_buf st' = apply_events (jit_buf st) stores
        /\ jit_code st' = Some base /\ R_JIT_GetDrawColumn st' = Some base
        /\ es = match t with
                | Arm64Apple =>
                    [EvWriteProtect false] ++ stores ++
                    [EvWriteProtect true; EvICacheInvalidate 0 84; EvPublish base]
                | _ => stores ++ [EvPublish base]
                end).
Proof.
  unfold R_JIT_GenerateDrawColumn.
  destruct t.
  3: destruct (jit_code st) as [base|] eqn:Hc;
     [ destruct (Z.eqb a (jit_current_colormap st) && is_set (jit_compiled_fn st));
       [ left; auto
       | right; exists base, [EvStore 0 x86_64_jit_template;
                              EvStore X86_64_COLORMAP_OFFSET (le_bytes 8 a)];
         repeat split; auto; discriminate ]
     | left; rewrite Hc; auto ].
  3: left; auto.
  all: destruct (jit_code st) as [base|] eqn:Hc;
     [ destruct (Z.eqb a (jit_current_colormap st) && is_set (jit_compiled_fn st));
       [ left; auto
       | right; exists base, (arm_stores 0 (arm_words a));
         repeat split; try discriminate ]
     | left; rewrite Hc; auto ].
Qed.

(** C3: a call with the address already baked, while an entry point is
    set, changes nothing and has no effect. *)
Theorem C3_generate_idempotent t st addr :
  t <> Unsupported -> jit_compiled_fn st <> None -> jit_current_colormap st = addr ->
  R_JIT_GenerateDrawColumn t st addr = (st, []).
Proof.
  intros Ht Hf Hc. unfold R_JIT_GenerateDrawColumn.
  destruct (jit_code st); [|destruct t; [reflexivity..|contradiction]].
  rewrite Hc, Z.eqb_refl. destruct (jit_compiled_fn st); [|contradiction].
  destruct t; [reflexivity..|contradiction].
Qed.

Lemma C3_generate_idempotent_witness :
  let st := fst (R_JIT_GenerateDrawColumn X86_64 (mk_jit (Some 4096) (fun _ => 0) None 0)
                   sample_cmap) in
  R_JIT_GenerateDrawColumn X86_64 st sample_cmap = (st, []).
Proof.
  apply C3_generate_idempotent; [discriminate | cbn; discriminate | reflexivity].
Defined.

(** C10: every store of a call lies in the first 84 bytes (ARM64: the 21
    words) or the first [X86_64_TEMPLATE_SIZE = 59] bytes (x86_64) of the
    4096-byte buffer; the ARM64 call writes 21 words when it writes. *)
Theorem C10_stores_in_bounds t st a :
  let es := snd (R_JIT_GenerateDrawColumn t st a) in
  match t with
  | Arm64Apple | Arm64Other =>
      forallb (store_within 0 84) es = true
      /\ (es = [] \/ (List.length (filter is_store es) = 21%nat
                      /\ forallb (fun e => match e with
                                           | EvStore _ bs => List.length bs =? 4
                                           | _ => true end)%nat es = true))
  | X86_64 => forallb (store_within 0 X86_64_TEMPLATE_SIZE) es = true
  | Unsupported => es = []
  end
  /\ X86_64_TEMPLATE_SIZE = 59 /\ 84 <= jit_code_size /\ X86_64_TEMPLATE_SIZE <= jit_code_size.
Proof.
  cbv zeta. split; [|repeat split; reflexivity || discriminate].
  unfold R_JIT_GenerateDrawColumn.
  destruct t; [..|reflexivity];
    (destruct (jit_code st) as [base|]; [|cbn; auto]);
    (destruct (Z.eqb a (jit_current_colormap st) && is_set (jit_compiled_fn st));
     [cbn; auto|]); cbn [snd].
  - split; [reflexivity | right; split; reflexivity].
  - split; [reflexivity | right; split; reflexivity].
  - reflexivity.
Qed.

(** C4: after generating for [addrA] and then for [addrB <> addrA], the
    entry point is published and [addrB] is recorded.  What a call then
    runs depends on the instruction words the core fetches
    ([fetch_allowed]).  On x86_64 every view is the new buffer and a call
    is exactly the reference loop through [addrB].  On the Apple build the
    84 written bytes are invalidated, so every view decodes to the new
    code: under every resolution of the unpredictable [ldp], a call that
    returns has drawn through [addrB] (with the index mask of C1), and it
    returns unless an [ldp] is UNDEFINED.  On the other ARM64 builds
    nothing is invalidated: the buffer as it was after the first call is
    an allowed view, and a call that runs it draws through [addrA]. *)
Theorem C4_rebake_on_change t st base addrA addrB :
  t <> Unsupported -> jit_code st = Some base -> addrA <> addrB ->
  0 <= addrA < 2 ^ 64 -> 0 <= addrB < 2 ^ 64 ->
  let st1 := fst (R_JIT_GenerateDrawColumn t st addrA) in
  let st2 := fst (R_JIT_GenerateDrawColumn t st1 addrB) in
  let es := gen_events t base addrB in
  jit_current_colormap st2 = addrB /\ R_JIT_GetDrawColumn st2 = Some base
  /\ match t with
     | X86_64 =>
         forall code, fetch_allowed t es (jit_buf st1) (jit_buf st2) code ->
         forall rs m stk dest source cmap count fracstep frac,
           0 <= count < 2 ^ 31 ->
           exists s',
             x86_run (6 + (10 * S (Z.to_nat count) + 4)) code
               (x86_call_state rs m stk dest source cmap count fracstep frac)
             = Some (s', (6 + (10 * S (Z.to_nat count) + 4))%nat)
             /\ xmem s' = ref_draw_column m dest source addrB count fracstep frac
     | Arm64Apple =>
         forall code, fetch_allowed t es (jit_buf st1) (jit_buf st2) code ->
         forall pick rs m stk dest source cmap count fracstep frac extra,
           let s0 := arm_call_state rs m stk dest source cmap count fracstep frac in
           (forall r, arm_run_cu pick (9 + 9 * arm_iterations count + 3 + extra) code s0
                      = Some r ->
              amem (fst r) = column_loop 15 (arm_iterations count) m (wrap64 dest) source
                               addrB (wrap32 frac) fracstep)
           /\ ((forall s1, pick s1 <> LdpUndefined) ->
               exists r, arm_run_cu pick (9 + 9 * arm_iterations count + 3 + extra) code s0
                         = Some r)
     | Arm64Other =>
         addrA <> jit_current_colormap st ->
         fetch_allowed t es (jit_buf st1) (jit_buf st2) (jit_buf st1)
         /\ forall pick rs m stk dest source cmap count fracstep frac extra r,
              arm_run_cu pick (9 + 9 * arm_iterations count + 3 + extra) (jit_buf st1)
                (arm_call_state rs m stk dest source cmap count fracstep frac) = Some r ->
              amem (fst r) = column_loop 15 (arm_iterations count) m (wrap64 dest) source
                               addrA (wrap32 frac) fracstep
     | Unsupported => False
     end.
Proof.
  intros Ht Hc Hab Ha Hb. cbv zeta.
  destruct (gen_current t st addrA base Ht Hc) as [Hcur Hcode].
  rewrite (gen_fresh t _ addrB base Ht Hcode) by (rewrite Hcur; congruence).
  cbn [fst jit_current_colormap jit_buf]. unfold R_JIT_GetDrawColumn.
  split; [reflexivity|]. split; [reflexivity|].
  destruct t; [| | |contradiction].
  - intros code Hf pick rs m stk dest source cmap count fracstep frac extra.
    rewrite apply_events_apple in Hf.
    assert (Hok : arm_code_ok code addrB).
    { eapply arm_code_ok_ext; [|apply arm_gen_code_ok].
      intros pc Hpc. eapply fetch_allowed_new; [exact Hf|].
      rewrite icache_invalidated_apple.
      pose proof (Z.div_mod pc 4 ltac:(lia)).
      pose proof (Z.mod_pos_bound pc 4 ltac:(lia)).
      apply andb_true_iff. split; [apply Z.leb_le | apply Z.ltb_lt]; lia. }
    destruct (arm_call_cu code addrB rs m stk dest source cmap count fracstep frac Hok Hb)
      as [E1 [E2 _]].
    split.
    + intros r Hr. exact (proj1 (proj2 (E1 pick extra r Hr))).
    + apply E2.
  - intros Hna. rewrite (gen_fresh Arm64Other st addrA base) by (discriminate || assumption).
    cbn [fst jit_buf]. split.
    + apply fetch_allowed_old; [discriminate|]. apply icache_invalidated_other.
    + intros pick rs m stk dest source cmap count fracstep frac extra r Hr.
      destruct (arm_call_cu _ addrA rs m stk dest source cmap count fracstep frac
                  (arm_gen_code_ok (jit_buf st) base addrA) Ha) as [E1 _].
      exact (proj1 (proj2 (E1 pick extra r Hr))).
  - intros code Hf. apply fetch_allowed_x86 in Hf. subst code.
    intros rs m stk dest source cmap count fracstep frac Hn.
    destruct (x86_draw_column _ addrB rs m stk dest source cmap count fracstep frac 0
                (x86_gen_code_ok (jit_buf (fst (R_JIT_GenerateDrawColumn X86_64 st addrA)))
                   base addrB Hb) Hb Hn) as [s' [Hr [Hm _]]].
    rewrite Nat.add_0_r in Hr. exists s'. split; assumption.
Qed.

Lemma C4_rebake_on_change_witness :
  let st0 := mk_jit (Some 4096) (fun _ => 0) None 0 in
  let st1 := fst (R_JIT_GenerateDrawColumn Arm64Other st0 0x1000) in
  let s0 := arm_call_state (fun r => 1000 + r) sample_mem [] 5000 1000 sample_cmap 0 0 0 in
  fetch_allowed Arm64Other (gen_events Arm64Other 4096 sample_cmap) (jit_buf st1)
    (jit_buf (fst (R_JIT_GenerateDrawColumn Arm64Other st1 sample_cmap))) (jit_buf st1)
  /\ (exists r, arm_run_cu (fun _ => LdpNop) 21 (jit_buf st1) s0 = Some r
       /\ amem (fst r) = column_loop 15 1 sample_mem (wrap64 5000) 1000 0x1000 0 0
       /\ load8 (amem (fst r)) 5000 = 0)
  /\ load8 (ref_draw_column sample_mem 5000 1000 sample_cmap 0 0 0) 5000 = 50.
Proof.
  cbv zeta.
  destruct (C4_rebake_on_change Arm64Other (mk_jit (Some 4096) (fun _ => 0) None 0) 4096
              0x1000 sample_cmap)
    as [_ [_ H]];
    [discriminate | reflexivity | unfold sample_cmap; lia | lia | unfold sample_cmap; lia | ].
  destruct H as [Hf Hm]; [unfold sample_cmap; cbn; lia|].
  split; [exact Hf|]. split; [|vm_compute; reflexivity].
  match goal with |- exists r, arm_run_cu ?p ?n ?c ?s = Some r /\ _ =>
    destruct (arm_run_cu p n c s) as [r|] eqn:E end.
  - exists r. split; [reflexivity|].
    assert (Hr := Hm (fun _ => LdpNop) (fun r => 1000 + r) sample_mem [] 5000 1000 sample_cmap
                    0 0 0 0%nat r E).
    cbn [jit_buf] in Hr. split; [exact Hr|]. rewrite Hr. vm_compute. reflexivity.
  - vm_compute in E. discriminate.
Defined.

(** C5: the full 64-bit address is the immediate.  On ARM64 (either
    build) words 2..5 decode to [movz]/[movk] of x19 with the four 16-bit
    chunks of [a] at shifts 0, 16, 32, 48, and running them from any state
    leaves exactly [a] in x19; on x86_64 the bytes 7..14 are the 8
    little-endian bytes of [a], the instruction at 5 is [mov r12, imm64]
    with immediate [a], and executing it leaves exactly [a] in r12. *)
Theorem C5_full_width_immediate a buf base :
  0 <= a < 2 ^ 64 ->
  let arm_code := apply_events buf (gen_events Arm64Other base a) in
  let x86_code := apply_events buf (gen_events X86_64 base a) in
  apply_events buf (gen_events Arm64Apple base a) = arm_code
  /\ arm_decode (arm_fetch arm_code 8) = Some (AMovz true 19 (Z.land a 0xFFFF) 0)
  /\ arm_decode (arm_fetch arm_code 12)
     = Some (AMovk true 19 (Z.land (Z.shiftr a 16) 0xFFFF) 1)
  /\ arm_decode (arm_fetch arm_code 16)
     = Some (AMovk true 19 (Z.land (Z.shiftr a 32) 0xFFFF) 2)
  /\ arm_decode (arm_fetch arm_code 20)
     = Some (AMovk true 19 (Z.land (Z.shiftr a 48) 0xFFFF) 3)
  /\ (forall s, apc s = 8 ->
        exists s', arm_steps 4 arm_code s = Some s' /\ aregs s' 19 = a /\ apc s' = 24)
  /\ map (fun k => x86_code (X86_64_COLORMAP_OFFSET + Z.of_nat k)) (seq 0 8) = le_bytes 8 a
  /\ x86_decode x86_code 5 = Some (XMovImm true 12 a, 10)
  /\ (forall s, xpc s = 5 ->
        exists s', x86_step x86_code s = Some s' /\ xregs s' 12 = a /\ xpc s' = 15).
Proof.
  intros Ha. cbv zeta.
  pose proof (arm_gen_code_ok buf base a) as Hok.
  pose proof (x86_gen_code_ok buf base a Ha) as Hx.
  split; [apply apply_events_apple|].
  split; [apply Hok; reflexivity|].
  split; [apply Hok; reflexivity|].
  split; [apply Hok; reflexivity|].
  split; [apply Hok; reflexivity|].
  split; [intros s Hs; exact (arm_movw_steps _ a s Hok Ha Hs)|].
  split; [lazy -[byte_at]; reflexivity|].
  assert (Hd : x86_decode (apply_events buf (gen_events X86_64 base a)) 5
               = Some (XMovImm true 12 a, 10)) by (apply Hx; reflexivity).
  split; [exact Hd|].
  intros [rs sf zf pc m stk] Hs. cbn in Hs. subst pc.
  unfold x86_step. cbn [xpc]. rewrite Hd.
  eexists. split; [reflexivity|]. cbn. split; [|reflexivity].
  apply Z.mod_small. exact Ha.
Qed.

Lemma C5_full_width_immediate_witness :
  exists s',
    arm_steps 4 (apply_events (fun _ => 0) (gen_events Arm64Other 0 sample_cmap))
      (mk_arm (fun _ => 0) false false false false 8 (fun _ => 0) [])
    = Some s' /\ aregs s' 19 = sample_cmap.
Proof.
  destruct (C5_full_width_immediate sample_cmap (fun _ => 0) 0)
    as [_ [_ [_ [_ [_ [H _]]]]]]; [unfold sample_cmap; lia|].
  destruct (H (mk_arm (fun _ => 0) false false false false 8 (fun _ => 0) []) eq_refl)
    as [s' [H1 [H2 _]]].
  exists s'. split; assumption.
Defined.

(** C6: the mode changes only at frame start (or by an explicit toggle or
    re-initialisation).  With auto-switch on, every [R_JIT_FrameStart]
    flips the mode and moves the reference point to its clock reading if
    the time elapsed since the last switch is at least the interval, and
    leaves both unchanged otherwise.  With a 1 s interval, a frame starting
    0.99 s after the last switch keeps the mode, all its draws take the
    path selected at its start, and the next frame starting 1.01 s after
    the last switch flips the mode and resets the reference point to its
    start. *)
Theorem C6_auto_switch_at_frame_start t h k t1 t2 t1' t2' te :
  h_auto h = true -> h_interval_ns h = 1000000000 ->
  ns_between (h_last_switch h) t2 = 990000000 ->
  ns_between (h_last_switch h) t2' = 1010000000 ->
  let h1 := R_JIT_FrameStart t1 t2 h in
  let r := run_ops t h1 (repeat OpDraw k ++ [OpFrameEnd te]) in
  let h3 := R_JIT_FrameStart t1' t2' (fst r) in
  (forall h0 o,
     match o with OpFrameStart _ _ | OpToggle | OpInit _ _ _ => False | _ => True end ->
     h_mode (fst (step t h0 o)) = h_mode h0)
  /\ (forall h0 s1 s2,
        h_auto h0 = true ->
        let h0' := R_JIT_FrameStart s1 s2 h0 in
        if h_interval_ns h0 <=? ns_between (h_last_switch h0) s2
        then h_mode h0' = negb (h_mode h0) /\ h_last_switch h0' = s2
        else h_mode h0' = h_mode h0 /\ h_last_switch h0' = h_last_switch h0)
  /\ h_mode h1 = h_mode h /\ h_last_switch h1 = h_last_switch h
  /\ snd r = repeat (ODraw (snd (R_DrawColumn h1))) k
  /\ h_mode (fst r) = h_mode h
  /\ h_mode h3 = negb (h_mode h) /\ h_last_switch h3 = t2'.
Proof.
  intros Ha Hi H1 H2. cbv zeta.
  split.
  { intros h0 o Ho. destruct o; try contradiction; cbn; try reflexivity.
    - unfold R_JIT_FrameEnd. destruct (h_log h0); [destruct (100 <=? _)|]; reflexivity.
    - destruct (R_JIT_GenerateDrawColumn t (h_jit h0) colormap); reflexivity. }
  split.
  { intros h0 s1 s2 Ha0. cbv zeta. unfold R_JIT_FrameStart. rewrite Ha0. cbn [andb].
    destruct (h_interval_ns h0 <=? ns_between (h_last_switch h0) s2); split; reflexivity. }
  assert (E1 : R_JIT_FrameStart t1 t2 h
               = mk_h (h_jit h) (h_stats h) (h_mode h) t1 0 (h_last_switch h) (h_auto h)
                      (h_interval_ns h) (h_log h) (h_flush_counter h) (h_program_start h)).
  { unfold R_JIT_FrameStart. rewrite Ha, Hi, H1. reflexivity. }
  rewrite E1, run_ops_app, draws_run. cbn [fst snd run_ops step h_mode h_last_switch].
  rewrite app_nil_r.
  match goal with |- context [R_JIT_FrameEnd te ?x] => set (h2 := R_JIT_FrameEnd te x) end.
  assert (E2 : h_mode h2 = h_mode h /\ h_auto h2 = true /\ h_interval_ns h2 = 1000000000
               /\ h_last_switch h2 = h_last_switch h).
  { unfold h2, R_JIT_FrameEnd. destruct (h_log h); [destruct (100 <=? _)|]; cbn; auto. }
  destruct E2 as [Em2 [Ea2 [Ei2 El2]]].
  unfold R_JIT_FrameStart. rewrite Em2, Ea2, Ei2, El2, H2. cbn.
  repeat split; reflexivity.
Qed.

Lemma C6_auto_switch_at_frame_start_witness :
  let h := R_JIT_Init (Some 4096) false (mk_ts 10 0) (h_initial (fun _ => 0)) in
  let h1 := R_JIT_FrameStart (mk_ts 10 990000000) (mk_ts 10 990000000) h in
  let r := run_ops X86_64 h1 (repeat OpDraw 3 ++ [OpFrameEnd (mk_ts 11 5000000)]) in
  h_mode h1 = false
  /\ h_mode (R_JIT_FrameStart (mk_ts 11 10000000) (mk_ts 11 10000000) (fst r)) = true.
Proof.
  cbv zeta.
  destruct (C6_auto_switch_at_frame_start X86_64
              (R_JIT_Init (Some 4096) false (mk_ts 10 0) (h_initial (fun _ => 0))) 3
              (mk_ts 10 990000000) (mk_ts 10 990000000)
              (mk_ts 11 10000000) (mk_ts 11 10000000) (mk_ts 11 5000000))
    as [_ [_ [Hm1 [_ [_ [_ [Hm3 _]]]]]]]; [reflexivity..|].
  split; [exact Hm1 | exact Hm3].
Defined.

(** C7: [R_JIT_FrameStart] zeroes the frame's draw counter;
    [R_JIT_FrameEnd] adds the frame to the bucket of the current mode only;
    and with auto-switch off, 5 frames in JIT mode, a toggle, then 5 frames
    in branch mode give 5 frames in each bucket, each bucket holding the
    draws and the times of its own frames. *)
Theorem C7_frame_attribution t h fs1 fs2 :
  h_auto h = false -> h_mode h = true -> h_stats h = stats_zero ->
  List.length fs1 = 5%nat -> List.length fs2 = 5%nat ->
  let s := h_stats (fst (run_ops t h (frames_ops fs1 ++ OpToggle :: frames_ops fs2))) in
  let time fs := fold_right Z.add 0 (map (fun f => ns_between (fr_start1 f) (fr_end f)) fs) in
  (forall h0 s1 s2, h_frame_calls (R_JIT_FrameStart s1 s2 h0) = 0)
  /\ (forall h0 te,
        let s0 := h_stats h0 in
        let c := h_frame_calls h0 in
        let e := ns_between (h_frame_start h0) te in
        h_stats (R_JIT_FrameEnd te h0)
        = if h_mode h0 then
            mk_stats (wrap64 (jit_calls s0 + c)) (branch_calls s0) (wrap64 (jit_frames s0 + 1))
                     (branch_frames s0) (jit_time_ns s0 + e) (branch_time_ns s0)
          else
            mk_stats (jit_calls s0) (wrap64 (branch_calls s0 + c)) (jit_frames s0)
                     (wrap64 (branch_frames s0 + 1)) (jit_time_ns s0) (branch_time_ns s0 + e))
  /\ jit_frames s = 5 /\ branch_frames s = 5
  /\ jit_calls s = wrap64 (Z.of_nat (list_sum (map fr_draws fs1)))
  /\ branch_calls s = wrap64 (Z.of_nat (list_sum (map fr_draws fs2)))
  /\ jit_time_ns s = time fs1 /\ branch_time_ns s = time fs2.
Proof.
  intros Ha Hm Hs H1 H2. cbv zeta.
  split; [reflexivity|].
  split.
  { intros h0 te. unfold R_JIT_FrameEnd.
    destruct (h_log h0); [destruct (100 <=? _)|]; reflexivity. }
  rewrite run_ops_app. cbn [fst].
  destruct (frames_run t h fs1 Ha) as [Hm1 [Ha1 Hs1]].
  change (OpToggle :: frames_ops fs2) with ([OpToggle] ++ frames_ops fs2).
  rewrite run_ops_app. cbn [fst].
  set (h1 := fst (run_ops t h (frames_ops fs1))) in *.
  set (h2 := fst (run_ops t h1 [OpToggle])).
  assert (Ha2 : h_auto h2 = false) by exact Ha1.
  assert (Hm2 : h_mode h2 = false) by (cbn; rewrite Hm1, Hm; reflexivity).
  assert (Hs2 : h_stats h2 = h_stats h1) by reflexivity.
  destruct (frames_run t h2 fs2 Ha2) as [_ [_ Hs3]].
  rewrite Hs3, Hm2, Hs2, Hs1, Hm, Hs.
  rewrite (frames_stats_spec true fs1 stats_zero) by (cbn; lia). cbn zeta.
  rewrite frames_stats_spec by (cbn; first [apply wrap64_bound | lia]).
  cbn. rewrite H1, H2. repeat split.
Qed.

Lemma C7_frame_attribution_witness :
  let h := R_JIT_Toggle (R_JIT_ToggleAutoSwitch (mk_ts 1 0)
             (R_JIT_Init (Some 4096) false (mk_ts 1 0) (h_initial (fun _ => 0)))) in
  let fs := repeat (mk_frame (mk_ts 2 0) (mk_ts 2 0) 7 (mk_ts 2 16000000)) 5 in
  let s := h_stats (fst (run_ops X86_64 h (frames_ops fs ++ OpToggle :: frames_ops fs))) in
  jit_frames s = 5 /\ branch_frames s = 5 /\ jit_calls s = 35 /\ branch_calls s = 35.
Proof.
  cbv zeta.
  destruct (C7_frame_attribution X86_64
              (R_JIT_Toggle (R_JIT_ToggleAutoSwitch (mk_ts 1 0)
                 (R_JIT_Init (Some 4096) false (mk_ts 1 0) (h_initial (fun _ => 0)))))
              (repeat (mk_frame (mk_ts 2 0) (mk_ts 2 0) 7 (mk_ts 2 16000000)) 5)
              (repeat (mk_frame (mk_ts 2 0) (mk_ts 2 0) 7 (mk_ts 2 16000000)) 5))
    as [_ [_ [Hj [Hb [Hjc [Hbc _]]]]]]; [reflexivity..|].
  split; [exact Hj|]. split; [exact Hb|].
  split; [rewrite Hjc | rewrite Hbc]; reflexivity.
Defined.

(** C8 (counterexample): a 16.5 ms frame, the first one logged, gives the
    row [0.00,BRANCH,16.5000,0]: the frame time has four decimals.  A
    150 ns frame prints as [0.0001]: the [double] 150 / 1000000.0 lies just
    below 0.00015. *)
Lemma C8_frame_time_four_decimals :
  let h := R_JIT_Init (Some 4096) true (mk_ts 100 0) (h_initial (fun _ => 0)) in
  let h' := fst (run_ops X86_64 h [OpFrameStart (mk_ts 100 0) (mk_ts 100 0);
                                   OpFrameEnd (mk_ts 100 16500000)]) in
  option_map log_rows (h_log h')
  = Some [csv_header; ("0.00,BRANCH,16.5000,0" ++ newline)%string]
  /\ option_map log_rows
       (h_log (fst (run_ops X86_64 h [OpFrameStart (mk_ts 100 0) (mk_ts 100 0);
                                      OpFrameEnd (mk_ts 100 150)])))
     = Some [csv_header; ("0.00,BRANCH,0.0001,0" ++ newline)%string].
Proof. split; vm_compute; reflexivity. Qed.

(** C8: [R_JIT_Init] with the file open writes (and flushes) the header
    only; every [R_JIT_FrameEnd] with the file open appends exactly one
    row [csv_row] (timestamp in ms since the first [R_JIT_FrameEnd] with
    two decimals, [JIT] or [BRANCH] for the current mode, frame time in ms
    with four decimals, draw count; both times are the [double] values the
    source computes, printed as [printf] rounds them) behind the rows
    already there, and
    flushes all rows on every 100th such call, nothing in between; the
    first [R_JIT_FrameEnd] takes its own end time as the origin, so its
    timestamp prints as [0.00]; no other call touches the rows. *)
Theorem C8_log_rows :
  (forall alloc now h, h_log (R_JIT_Init alloc true now h) = Some (mk_log [csv_header] 1))
  /\ (forall te h l,
        h_log h = Some l ->
        let ps := if tv_sec (h_program_start h) =? 0 then te else h_program_start h in
        let h' := R_JIT_FrameEnd te h in
        exists l',
          h_log h' = Some l'
          /\ log_rows l' = log_rows l ++ [csv_row (ms_between ps te) (h_mode h)
                                            (ms_between (h_frame_start h) te)
                                            (h_frame_calls h)]
          /\ h_program_start h' = ps
          /\ if 100 <=? h_flush_counter h + 1
             then log_flushed l' = List.length (log_rows l') /\ h_flush_counter h' = 0
             else log_flushed l' = log_flushed l
                  /\ h_flush_counter h' = h_flush_counter h + 1)
  /\ (forall te h, tv_sec (h_program_start h) = 0 ->
        h_program_start (R_JIT_FrameEnd te h) = te
        /\ ms_between te te = SpecFloat.S754_zero false)
  /\ (forall te mode e c, exists rest, csv_row (ms_between te te) mode e c = ("0.00," ++ rest)%string)
  /\ (forall t h o,
        match o with OpInit _ _ _ | OpShutdown | OpFrameEnd _ => False | _ => True end ->
        h_log (fst (step t h o)) = h_log h).
Proof.
  split; [reflexivity|].
  split.
  { intros te h l Hl. cbv zeta. unfold R_JIT_FrameEnd. rewrite Hl.
    destruct (100 <=? h_flush_counter h + 1); cbn; eexists; (split; [reflexivity|]);
      cbn; auto. }
  split.
  { intros te h H0. unfold R_JIT_FrameEnd. rewrite H0. cbn.
    split; [destruct (h_log h); [destruct (100 <=? _)|]; reflexivity |].
    unfold ms_between. rewrite !Z.sub_diag. reflexivity. }
  split.
  { intros te mode e c. unfold ms_between. rewrite !Z.sub_diag. eexists. reflexivity. }
  intros t h o Ho. destruct o; try contradiction; try reflexivity.
  cbn. destruct (R_JIT_GenerateDrawColumn t (h_jit h) colormap). reflexivity.
Qed.

(** C9: from process start, after [R_JIT_Init] whose [mmap] fails (and
    no later successful one), or on an unsupported target, whatever calls
    follow: [R_JIT_GetDrawColumn] stays NULL, every generation call has no
    effect and every draw takes the reference path. *)
Theorem C9_reference_only t buf alloc log_ok now ops :
  t = Unsupported \/ (alloc = None /\ forallb (fun o => negb (reallocates o)) ops = true) ->
  let r := run_ops t (R_JIT_Init alloc log_ok now (h_initial buf)) ops in
  R_JIT_GetDrawColumn (h_jit (fst r)) = None
  /\ Forall (fun x => x = ODraw Reference \/ x = OGen []) (snd r).
Proof.
  intros H. cbv zeta.
  assert (H0 : ref_only t (R_JIT_Init alloc log_ok now (h_initial buf))).
  { split; [reflexivity|]. destruct H as [->|[-> _]]; [left|right]; reflexivity. }
  destruct (run_ref_only t _ ops H0) as [[Hf _] Hout].
  { destruct H as [->|[_ H]]; [left; reflexivity | right; exact H]. }
  split; assumption.
Qed.

Lemma C9_reference_only_witness :
  let ops := [OpFrameStart (mk_ts 1 0) (mk_ts 1 0); OpToggle; OpGenerate sample_cmap;
              OpDraw; OpDraw; OpFrameEnd (mk_ts 1 5000000)] in
  snd (run_ops X86_64 (R_JIT_Init None true (mk_ts 1 0) (h_initial (fun _ => 0))) ops)
  = [OGen []; ODraw Reference; ODraw Reference]
  /\ R_JIT_GetDrawColumn
       (h_jit (fst (run_ops X86_64 (R_JIT_Init None true (mk_ts 1 0)
                                      (h_initial (fun _ => 0))) ops))) = None.
Proof.
  cbv zeta.
  destruct (C9_reference_only X86_64 (fun _ => 0) None true (mk_ts 1 0)
              [OpFrameStart (mk_ts 1 0) (mk_ts 1 0); OpToggle; OpGenerate sample_cmap;
               OpDraw; OpDraw; OpFrameEnd (mk_ts 1 5000000)])
    as [Hf _]; [right; split; reflexivity|].
  split; [reflexivity | exact Hf].
Defined.

(** * Further properties *)

(** The ARM64 prologue is [stp x19, x19] / [stp x21, x21] (words
    [0xa9bf4ff3], [0xa9bf57f5]) and the epilogue [ldp x21, x21] /
    [ldp x19, x19], whose outcome the architecture leaves open.  Under
    every resolution, a call that returns has run
    [9 * arm_iterations count + 12] instructions and x20 and x22,
    callee-saved under AAPCS64, hold 320 and the last [frac] value.  Under
    the NOP resolution x19 and the stack are not restored either: x19
    holds the colormap address and four words stay pushed. *)
Theorem arm64_x20_x22_not_preserved t buf base a rs m stk dest source cmap count
  fracstep frac :
  t = Arm64Apple \/ t = Arm64Other -> 0 <= a < 2 ^ 64 ->
  let code := apply_events buf (gen_events t base a) in
  let s0 := arm_call_state rs m stk dest source cmap count fracstep frac in
  (forall pick extra r,
     arm_run_cu pick (9 * arm_iterations count + 12 + extra) code s0 = Some r ->
     snd r = (9 * arm_iterations count + 12)%nat
     /\ aregs (fst r) 20 = 320
     /\ aregs (fst r) 22 = wrap32 (frac + Z.of_nat (arm_iterations count) * fracstep))
  /\ exists s',
       arm_run_cu (fun _ => LdpNop) (9 * arm_iterations count + 12) code s0
       = Some (s', (9 * arm_iterations count + 12)%nat)
       /\ aregs s' 19 = a /\ astack s' = rs 21 :: rs 21 :: rs 19 :: rs 19 :: stk.
Proof.
  intros Ht Ha. cbv zeta.
  assert (Hb : apply_events buf (gen_events t base a)
               = apply_events buf (gen_events Arm64Other base a))
    by (destruct Ht as [-> | ->]; [apply apply_events_apple | reflexivity]).
  rewrite Hb.
  destruct (arm_call_cu _ a rs m stk dest source cmap count fracstep frac
              (arm_gen_code_ok buf base a) Ha) as [E1 [_ E3]].
  replace (9 * arm_iterations count + 12)%nat with (9 + 9 * arm_iterations count + 3)%nat
    by lia.
  split.
  - intros pick extra r Hr. destruct (E1 pick extra r Hr) as [H1 [_ [H2 H3]]].
    split; [exact H1|]. split; assumption.
  - destruct (E3 0%nat) as [s' [Hr R]]. rewrite Nat.add_0_r in Hr.
    exists s'. split; assumption.
Qed.

Lemma arm64_x20_x22_not_preserved_witness :
  let code := apply_events (fun _ => 0) (gen_events Arm64Other 0 sample_cmap) in
  let s0 := arm_call_state (fun r => 1000 + r) sample_mem [] 5000 1000 sample_cmap 3 0x8000
              0x100000 in
  (forall pick extra r,
     arm_run_cu pick (9 * arm_iterations 3 + 12 + extra) code s0 = Some r ->
     snd r = (9 * arm_iterations 3 + 12)%nat
     /\ aregs (fst r) 20 = 320
     /\ aregs (fst r) 22 = wrap32 (0x100000 + Z.of_nat (arm_iterations 3) * 0x8000))
  /\ exists s',
       arm_run_cu (fun _ => LdpNop) (9 * arm_iterations 3 + 12) code s0
       = Some (s', (9 * arm_iterations 3 + 12)%nat)
       /\ aregs s' 19 = sample_cmap /\ astack s' = [1021; 1021; 1019; 1019].
Proof.
  apply (arm64_x20_x22_not_preserved Arm64Other (fun _ => 0) 0 sample_cmap
           (fun r => 1000 + r) sample_mem [] 5000 1000 sample_cmap 3 0x8000 0x100000).
  - right. reflexivity.
  - unfold sample_cmap. lia.
Defined.

(** ARM64, every [count], every resolution of the unpredictable [ldp]:
    a call of the generated function that returns has run its loop body
    [arm_iterations count] times ([count + 1] times for
    [0 <= count < 2^31], once when [count] is negative as a 32-bit
    number, [INT_MIN] included), writing the pixels of the 4-bit-index
    loop through the baked colormap, whatever [x2] holds; the call
    returns unless an [ldp] is UNDEFINED. *)
Theorem arm64_draw_column_any_count t buf base a rs m stk dest source cmap count
  fracstep frac :
  t = Arm64Apple \/ t = Arm64Other -> 0 <= a < 2 ^ 64 ->
  let code := apply_events buf (gen_events t base a) in
  let s0 := arm_call_state rs m stk dest source cmap count fracstep frac in
  forall pick extra,
    (forall r, arm_run_cu pick (9 * arm_iterations count + 12 + extra) code s0 = Some r ->
       snd r = (9 * arm_iterations count + 12)%nat
       /\ amem (fst r) = column_loop 15 (arm_iterations count) m (wrap64 dest) source a
                           (wrap32 frac) fracstep)
    /\ ((forall s1, pick s1 <> LdpUndefined) ->
        exists r, arm_run_cu pick (9 * arm_iterations count + 12 + extra) code s0 = Some r).
Proof.
  intros Ht Ha. cbv zeta. intros pick extra.
  assert (Hb : apply_events buf (gen_events t base a)
               = apply_events buf (gen_events Arm64Other base a))
    by (destruct Ht as [-> | ->]; [apply apply_events_apple | reflexivity]).
  rewrite Hb.
  destruct (arm_call_cu _ a rs m stk dest source cmap count fracstep frac
              (arm_gen_code_ok buf base a) Ha) as [E1 [E2 _]].
  replace (9 * arm_iterations count + 12)%nat with (9 + 9 * arm_iterations count + 3)%nat
    by lia.
  split.
  - intros r Hr. destruct (E1 pick extra r Hr) as [H1 [H2 _]]. split; assumption.
  - apply E2.
Qed.

Lemma arm64_draw_column_any_count_witness :
  arm_iterations (-1) = 1%nat /\ arm_iterations (- 2 ^ 31) = 1%nat /\
  let code := apply_events (fun _ => 0) (gen_events Arm64Apple 0 sample_cmap) in
  let s0 := arm_call_state (fun r => 1000 + r) sample_mem [] 5000 1000 0 (-1) 0x8000 0 in
  exists r,
    arm_run_cu (fun _ => LdpUnknown 7) (9 * arm_iterations (-1) + 12) code s0 = Some r
    /\ snd r = (9 * arm_iterations (-1) + 12)%nat
    /\ amem (fst r) = column_loop 15 (arm_iterations (-1)) sample_mem (wrap64 5000) 1000
                        sample_cmap (wrap32 0) 0x8000.
Proof.
  split; [reflexivity|]. split; [reflexivity|]. cbv zeta.
  destruct (arm64_draw_column_any_count Arm64Apple (fun _ => 0) 0 sample_cmap
              (fun r => 1000 + r) sample_mem [] 5000 1000 0 (-1) 0x8000 0
              ltac:(left; reflexivity) ltac:(unfold sample_cmap; lia)
              (fun _ => LdpUnknown 7) 0%nat) as [H1 H2].
  rewrite Nat.add_0_r in H1, H2.
  destruct H2 as [r Hr]; [intros s1; discriminate|].
  exists r. split; [exact Hr|]. exact (H1 r Hr).
Defined.

(** x86-64, every [count]: the generated function runs its loop body
    [x86_iterations count] times ([count + 1] times for
    [0 <= count < 2^31], [2^31 + 1] times for [INT_MIN], once for the other
    negative counts), with the 7-bit texture index and the baked colormap,
    and returns with the stack and the callee-saved rbx, r12 and r13
    restored. *)
Theorem x86_draw_column_any_count buf base a rs m stk dest source cmap count
  fracstep frac :
  0 <= a < 2 ^ 64 ->
  exists s',
    x86_run (10 * x86_iterations count + 10) (apply_events buf (gen_events X86_64 base a))
      (x86_call_state rs m stk dest source cmap count fracstep frac)
    = Some (s', (10 * x86_iterations count + 10)%nat)
    /\ xmem s' = column_loop 127 (x86_iterations count) m (wrap64 dest) source a
                   (wrap32 frac) fracstep
    /\ xstack s' = stk
    /\ xregs s' 3 = rs 3 /\ xregs s' 12 = rs 12 /\ xregs s' 13 = rs 13.
Proof.
  intros Ha.
  destruct (x86_draw_any _ a rs m stk dest source cmap count fracstep frac 0
              (x86_gen_code_ok buf base a Ha) Ha)
    as [s' [Hr [Hm [Hs [R3 [R12 R13]]]]]].
  exists s'. rewrite Nat.add_0_r in Hr.
  replace (10 * x86_iterations count + 10)%nat with (6 + (10 * x86_iterations count + 4))%nat
    by lia.
  repeat split; assumption.
Qed.

Lemma x86_draw_column_any_count_witness :
  x86_iterations (-1) = 1%nat /\
  exists s',
    x86_run (10 * x86_iterations (-1) + 10)
      (apply_events (fun _ => 0) (gen_events X86_64 0 sample_cmap))
      (x86_call_state (fun r => 1000 + r) sample_mem [] 5000 1000 0 (-1) 0x8000 0)
    = Some (s', (10 * x86_iterations (-1) + 10)%nat)
    /\ xmem s' = column_loop 127 (x86_iterations (-1)) sample_mem (wrap64 5000) 1000
                   sample_cmap (wrap32 0) 0x8000
    /\ xstack s' = [] /\ xregs s' 3 = 1003 /\ xregs s' 12 = 1012 /\ xregs s' 13 = 1013.
Proof.
  split; [reflexivity|].
  apply (x86_draw_column_any_count (fun _ => 0) 0 sample_cmap
           (fun r => 1000 + r) sample_mem [] 5000 1000 0 (-1) 0x8000 0).
  unfold sample_cmap. lia.
Defined.

(** Both backends write nothing to memory outside the column: after a
    call (on ARM64 under every resolution of the unpredictable [ldp]),
    every byte other than [dest + 320 * k] (64-bit wrap-around) for
    [k < iterations] holds what it held before.  The saved registers are
    kept in the separate stack of the model: the words the real pushes
    write below [sp] are not covered. *)
Theorem generated_code_writes_only_column t buf base a rs m stk dest source cmap count
  fracstep frac :
  0 <= a < 2 ^ 64 ->
  (t = X86_64 ->
   exists s',
     x86_run (10 * x86_iterations count + 10) (apply_events buf (gen_events t base a))
       (x86_call_state rs m stk dest source cmap count fracstep frac)
     = Some (s', (10 * x86_iterations count + 10)%nat)
     /\ forall x, (forall k, (k < x86_iterations count)%nat ->
                   x <> wrap64 (dest + 320 * Z.of_nat k)) ->
        xmem s' x = m x)
  /\ (t = Arm64Apple \/ t = Arm64Other ->
      forall pick extra r,
        arm_run_cu pick (9 * arm_iterations count + 12 + extra)
          (apply_events buf (gen_events t base a))
          (arm_call_state rs m stk dest source cmap count fracstep frac) = Some r ->
        forall x, (forall k, (k < arm_iterations count)%nat ->
                    x <> wrap64 (dest + 320 * Z.of_nat k)) ->
           amem (fst r) x = m x).
Proof.
  intros Ha.
  assert (Hw : forall n x, (forall k, (k < n)%nat -> x <> wrap64 (dest + 320 * Z.of_nat k)) ->
            forall k, (k < n)%nat -> x <> wrap64 (wrap64 dest + 320 * Z.of_nat k)).
  { intros n x H k Hk. rewrite wrap64_add_l. apply H. exact Hk. }
  split.
  - intros ->.
    destruct (x86_draw_any _ a rs m stk dest source cmap count fracstep frac 0
                (x86_gen_code_ok buf base a Ha) Ha) as [s' [Hr [Hm _]]].
    exists s'. rewrite Nat.add_0_r in Hr.
    replace (10 * x86_iterations count + 10)%nat
      with (6 + (10 * x86_iterations count + 4))%nat by lia.
    split; [exact Hr|]. intros x Hx. rewrite Hm. apply column_loop_frame. apply Hw, Hx.
  - intros Ht pick extra r Hr x Hx.
    assert (Hb : apply_events buf (gen_events t base a)
                 = apply_events buf (gen_events Arm64Other base a))
      by (destruct Ht as [-> | ->]; [apply apply_events_apple | reflexivity]).
    rewrite Hb in Hr.
    destruct (arm_call_cu _ a rs m stk dest source cmap count fracstep frac
                (arm_gen_code_ok buf base a) Ha) as [E1 _].
    replace (9 * arm_iterations count + 12)%nat with (9 + 9 * arm_iterations count + 3)%nat
      in Hr by lia.
    destruct (E1 pick extra r Hr) as [_ [Hm _]].
    rewrite Hm. apply column_loop_frame. apply Hw, Hx.
Qed.

Lemma generated_code_writes_only_column_witness :
  exists s',
    x86_run (10 * x86_iterations 3 + 10)
      (apply_events (fun _ => 0) (gen_events X86_64 0 sample_cmap))
      (x86_call_state (fun r => 1000 + r) sample_mem [] 5000 1000 0 3 0x8000 0)
    = Some (s', (10 * x86_iterations 3 + 10)%nat)
    /\ forall x, (forall k, (k < x86_iterations 3)%nat ->
                  x <> wrap64 (5000 + 320 * Z.of_nat k)) ->
       xmem s' x = sample_mem x.
Proof.
  apply (generated_code_writes_only_column X86_64 (fun _ => 0) 0 sample_cmap
           (fun r => 1000 + r) sample_mem [] 5000 1000 0 3 0x8000 0).
  - unfold sample_cmap. lia.
  - reflexivity.
Defined.

(** After [R_JIT_Shutdown], [R_JIT_GetDrawColumn] keeps returning the old
    entry point into the unmapped buffer: no sequence of calls without a
    successful [R_JIT_Init] changes it, the buffer stays NULL and every
    [R_JIT_GenerateDrawColumn] emits nothing (on a supported target). *)
Theorem shutdown_keeps_stale_entry t h ops :
  t <> Unsupported -> forallb (fun o => negb (reallocates o)) ops = true ->
  let r := run_ops t (R_JIT_Shutdown h) ops in
  jit_code (h_jit (fst r)) = None
  /\ R_JIT_GetDrawColumn (h_jit (fst r)) = R_JIT_GetDrawColumn (h_jit h)
  /\ Forall (fun x => match x with OGen es => es = [] | ODraw _ => True end) (snd r).
Proof.
  intros Ht Hops. cbn zeta. unfold R_JIT_GetDrawColumn.
  change (jit_compiled_fn (h_jit h)) with (jit_compiled_fn (h_jit (R_JIT_Shutdown h))).
  assert (Hc : jit_code (h_jit (R_JIT_Shutdown h)) = None) by reflexivity.
  revert Hc Hops. generalize (R_JIT_Shutdown h) as h0.
  induction ops as [|o ops IH]; intros h0 Hc Hops; [auto|].
  cbn [forallb] in Hops. apply andb_true_iff in Hops as [Ho Hops].
  apply negb_true_iff in Ho.
  destruct (step_no_buffer t h0 o Ht Hc Ho) as [Hc1 [Hf1 Hout1]].
  cbn [run_ops]. destruct (step t h0 o) as [h1 out1]. cbn [fst snd] in Hc1, Hf1, Hout1.
  destruct (IH h1 Hc1 Hops) as [Hc2 [Hf2 Hout2]].
  destruct (run_ops t h1 ops) as [h2 out2]. cbn [fst snd] in *.
  split; [exact Hc2|]. split; [congruence|]. apply Forall_app. split; assumption.
Qed.

Lemma shutdown_keeps_stale_entry_witness :
  let h := fst (run_ops X86_64 (h_initial (fun _ => 0))
                  [OpInit (Some 0x1000) false (mk_ts 1 0); OpGenerate sample_cmap]) in
  let r := run_ops X86_64 (R_JIT_Shutdown h)
             [OpGenerate 5; OpInit None true (mk_ts 2 0); OpDraw; OpGenerate sample_cmap] in
  jit_code (h_jit (fst r)) = None
  /\ R_JIT_GetDrawColumn (h_jit (fst r)) = R_JIT_GetDrawColumn (h_jit h)
  /\ Forall (fun x => match x with OGen es => es = [] | ODraw _ => True end) (snd r).
Proof.
  apply shutdown_keeps_stale_entry; [discriminate | reflexivity].
Defined.

(** [R_JIT_Init] does not reset [jit_compiled_fn] or
    [jit_current_colormap]: after shutdown and re-initialisation with a new
    mapping, generating for the colormap baked last is skipped, and
    [R_JIT_GetDrawColumn] still returns the entry point of the old
    mapping. *)
Theorem reinit_keeps_stale_entry t h e base' log_ok now :
  t <> Unsupported -> jit_compiled_fn (h_jit h) = Some e ->
  let r := run_ops t h [OpShutdown; OpInit (Some base') log_ok now;
                        OpGenerate (jit_current_colormap (h_jit h))] in
  jit_code (h_jit (fst r)) = Some base'
  /\ R_JIT_GetDrawColumn (h_jit (fst r)) = Some e
  /\ snd r = [OGen []].
Proof.
  intros Ht He. cbn. unfold R_JIT_GenerateDrawColumn. cbn.
  rewrite Z.eqb_refl, He. cbn.
  destruct t; [| | |contradiction]; cbn; auto.
Qed.

Lemma reinit_keeps_stale_entry_witness :
  let h := fst (run_ops Arm64Other (h_initial (fun _ => 0))
                  [OpInit (Some 0x1000) false (mk_ts 1 0); OpGenerate sample_cmap]) in
  let r := run_ops Arm64Other h [OpShutdown; OpInit (Some 0x2000) false (mk_ts 2 0);
                                 OpGenerate (jit_current_colormap (h_jit h))] in
  jit_code (h_jit (fst r)) = Some 0x2000
  /\ R_JIT_GetDrawColumn (h_jit (fst r)) = Some 0x1000
  /\ snd r = [OGen []].
Proof.
  apply reinit_keeps_stale_entry; [discriminate | reflexivity].
Defined.

(** With auto-switch off, the mode is changed by nothing but
    [R_JIT_Toggle], [R_JIT_ToggleAutoSwitch] and [R_JIT_Init]: frames,
    draws, generation and shutdown keep it. *)
Theorem mode_kept_without_auto t h ops :
  h_auto h = false ->
  Forall (fun o => match o with
                   | OpToggle | OpToggleAutoSwitch _ | OpInit _ _ _ => False
                   | _ => True end) ops ->
  h_mode (fst (run_ops t h ops)) = h_mode h /\ h_auto (fst (run_ops t h ops)) = false.
Proof.
  revert h. induction ops as [|o ops IH]; intros h Ha Hops; [auto|].
  inversion Hops as [|o' ops' Ho Hops']; subst.
  cbn [run_ops]. destruct (step_mode_kept t h o Ha Ho) as [Hm1 Ha1].
  destruct (step t h o) as [h1 out1]. cbn [fst] in Hm1, Ha1.
  destruct (IH h1 Ha1 Hops') as [Hm2 Ha2].
  destruct (run_ops t h1 ops) as [h2 out2]. cbn [fst] in *. split; congruence.
Qed.

Lemma mode_kept_without_auto_witness :
  let h := R_JIT_Toggle (R_JIT_ToggleAutoSwitch (mk_ts 0 0)
             (R_JIT_Init (Some 0x1000) true (mk_ts 0 0) (h_initial (fun _ => 0)))) in
  let ops := [OpFrameStart (mk_ts 5 0) (mk_ts 5 0); OpDraw; OpFrameEnd (mk_ts 5 100);
              OpGenerate sample_cmap; OpShutdown;
              OpFrameStart (mk_ts 9 0) (mk_ts 9 0); OpFrameEnd (mk_ts 9 100)] in
  h_mode (fst (run_ops X86_64 h ops)) = h_mode h
  /\ h_auto (fst (run_ops X86_64 h ops)) = false.
Proof.
  apply mode_kept_without_auto; [reflexivity|].
  repeat constructor.
Defined.

(** Every frame and every draw is counted once, in one of the two
    buckets, whatever the mode and auto-switch do during the frames: over a
    run of frames the two frame counters together grow by the number of
    frames and the two call counters by the number of draws (the [uint64_t]
    counters, modulo 2^64). *)
Theorem frames_all_counted t h fs :
  let s := h_stats h in
  let s' := h_stats (fst (run_ops t h (frames_ops fs))) in
  wrap64 (jit_frames s' + branch_frames s')
    = wrap64 (jit_frames s + branch_frames s + Z.of_nat (List.length fs))
  /\ wrap64 (jit_calls s' + branch_calls s')
     = wrap64 (jit_calls s + branch_calls s + Z.of_nat (list_sum (map fr_draws fs))).
Proof.
  revert h. induction fs as [|f fs IH]; intros h; cbn zeta.
  - cbn. rewrite !Z.add_0_r. auto.
  - cbn [frames_ops flat_map]. fold (frames_ops fs). rewrite run_ops_app. cbn [fst].
    destruct (IH (fst (run_ops t h (frame_ops f)))) as [A B]. cbn zeta in A, B.
    rewrite A, B.
    pose proof (frame_run_any t h f) as Hf.
    destruct (add_frame_sums (h_mode (R_JIT_FrameStart (fr_start1 f) (fr_start2 f) h))
                (Nat.iter (fr_draws f) (fun c => wrap64 (c + 1)) 0)
                (ns_between (fr_start1 f) (fr_end f)) (h_stats h)) as [F1 [F2 F3]].
    cbn zeta in F1, F2, F3. rewrite <- Hf in F1, F2, F3.
    rewrite iter_wrap0 in F2.
    cbn [List.length list_sum map fold_right].
    split.
    + rewrite <- wrap64_add_l, F1, wrap64_add_l. f_equal. lia.
    + rewrite <- wrap64_add_l, F2, wrap64_add_l. unfold wrap64.
      match goal with |- (?x + ?y mod ?M + ?z) mod ?M = _ =>
        replace (x + y mod M + z) with ((x + z) + y mod M) by ring end.
      rewrite Z.add_mod_idemp_r by lia. f_equal.
      unfold list_sum. rewrite Nat2Z.inj_add. lia.
Qed.

(** From process start, whatever the calls: the static [flush_counter]
    stays in [[0, 100)] and an open log never holds more than 99 rows that
    have not been flushed. *)
Theorem log_unflushed_bounded t buf ops :
  let h' := fst (run_ops t (h_initial buf) ops) in
  0 <= h_flush_counter h' < 100
  /\ forall l, h_log h' = Some l ->
     (log_flushed l <= List.length (log_rows l))%nat
     /\ (List.length (log_rows l) - log_flushed l <= 99)%nat.
Proof.
  cbn zeta.
  destruct (run_unflushed t (h_initial buf) ops) as [Hc Hl].
  - cbn. lia.
  - discriminate.
  - split; [exact Hc|]. intros l E. destruct (Hl l E) as [H1 H2]. split; [exact H1|]. lia.
Qed.

(** The origin of the log timestamps, the static [program_start] of
    [R_JIT_FrameEnd], is fixed once it holds a nonzero [tv_sec]: no call,
    [R_JIT_Shutdown] and [R_JIT_Init] included, changes it again. *)
Theorem program_start_fixed t h ops :
  tv_sec (h_program_start h) <> 0 ->
  h_program_start (fst (run_ops t h ops)) = h_program_start h.
Proof.
  revert h. induction ops as [|o ops IH]; intros h Hp; [reflexivity|].
  cbn [run_ops]. pose proof (step_program_start t h o Hp) as H1.
  destruct (step t h o) as [h1 out1]. cbn [fst] in H1.
  rewrite <- H1 in Hp. specialize (IH h1 Hp).
  destruct (run_ops t h1 ops) as [h2 out2]. cbn [fst] in *. congruence.
Qed.

Lemma program_start_fixed_witness :
  let h := R_JIT_FrameEnd (mk_ts 7 0) (h_initial (fun _ => 0)) in
  h_program_start (fst (run_ops X86_64 h
    [OpShutdown; OpInit (Some 0x1000) true (mk_ts 20 0);
     OpFrameStart (mk_ts 21 0) (mk_ts 21 0); OpFrameEnd (mk_ts 21 500)]))
  = h_program_start h.
Proof.
  apply program_start_fixed. cbn. discriminate.
Defined.

(** Turning auto-switch on restarts the interval: [last_switch_time]
    becomes the clock reading of [R_JIT_ToggleAutoSwitch], so the next
    [R_JIT_FrameStart] flips the mode iff a full interval has passed since
    then. *)
Theorem enable_auto_restarts_interval t1 t2 now h :
  h_auto h = false ->
  let h' := R_JIT_FrameStart t1 t2 (R_JIT_ToggleAutoSwitch now h) in
  h_auto h' = true
  /\ h_mode h' = xorb (h_interval_ns h <=? ns_between now t2) (h_mode h)
  /\ h_last_switch h' = if h_interval_ns h <=? ns_between now t2 then t2 else now.
Proof.
  intros Ha. unfold R_JIT_FrameStart, R_JIT_ToggleAutoSwitch. rewrite Ha. cbn.
  destruct (h_interval_ns h <=? ns_between now t2), (h_mode h); auto.
Qed.

Lemma enable_auto_restarts_interval_witness :
  let h := R_JIT_ToggleAutoSwitch (mk_ts 0 0) (h_initial (fun _ => 0)) in
  let h' := R_JIT_FrameStart (mk_ts 50 0) (mk_ts 50 500000000)
              (R_JIT_ToggleAutoSwitch (mk_ts 50 0) h) in
  h_auto h' = true
  /\ h_mode h' = xorb (h_interval_ns h <=? ns_between (mk_ts 50 0) (mk_ts 50 500000000))
                   (h_mode h)
  /\ h_last_switch h'
     = if h_interval_ns h <=? ns_between (mk_ts 50 0) (mk_ts 50 500000000)
       then mk_ts 50 500000000 else mk_ts 50 0.
Proof.
  apply enable_auto_restarts_interval. reflexivity.
Defined.

(** Rebaking for another colormap and back leaves no trace: after
    [R_JIT_GenerateDrawColumn(b)] then [R_JIT_GenerateDrawColumn(a)] with
    [a <> b], the buffer holds byte for byte what a single rewrite for [a]
    writes over the original buffer, and the published entry is the
    buffer. *)
Theorem rebake_leaves_no_trace t st base a b :
  t <> Unsupported -> jit_code st = Some base -> a <> b ->
  let st3 := fst (R_JIT_GenerateDrawColumn t (fst (R_JIT_GenerateDrawColumn t st b)) a) in
  (forall x, jit_buf st3 x = apply_events (jit_buf st) (gen_events t base a) x)
  /\ R_JIT_GetDrawColumn st3 = Some base /\ jit_current_colormap st3 = a.
Proof.
  intros Ht Hc Hab. cbn zeta.
  assert (Ha : (a =? b) = false) by (apply Z.eqb_neq; exact Hab).
  unfold R_JIT_GenerateDrawColumn, R_JIT_GetDrawColumn.
  destruct t; try contradiction; rewrite Hc;
    destruct ((b =? jit_current_colormap st) && is_set (jit_compiled_fn st)) eqn:E;
    cbn [fst jit_code jit_current_colormap jit_compiled_fn jit_buf andb];
    rewrite ?Hc.
  all: try (apply andb_true_iff in E as [E _]; apply Z.eqb_eq in E; rewrite <- E).
  all: rewrite Ha; cbn [andb fst jit_buf jit_compiled_fn jit_current_colormap].
  all: split; [intros x|split; reflexivity].
  all: lazymatch goal with |- ?x = ?x => reflexivity | _ => apply gen_events_overwrite end.
Qed.

Lemma rebake_leaves_no_trace_witness :
  let st := mk_jit (Some 0x1000) (fun _ => 0) None 0 in
  let st3 := fst (R_JIT_GenerateDrawColumn Arm64Apple
                    (fst (R_JIT_GenerateDrawColumn Arm64Apple st 0x2000)) sample_cmap) in
  (forall x, jit_buf st3 x
             = apply_events (jit_buf st) (gen_events Arm64Apple 0x1000 sample_cmap) x)
  /\ R_JIT_GetDrawColumn st3 = Some 0x1000 /\ jit_current_colormap st3 = sample_cmap.
Proof.
  exact (rebake_leaves_no_trace Arm64Apple (mk_jit (Some 0x1000) (fun _ => 0) None 0)
           0x1000 sample_cmap 0x2000 ltac:(discriminate) eq_refl
           ltac:(unfold sample_cmap; lia)).
Defined.
